(** * OMS core: the event bus and the state store

    A shallow embedding of [core/EventBus.js] and [core/Store.js], the two
    classes every module of the application goes through.

    - Both classes work on mutable objects that client code reaches as well
      ([window.eventBus], [window.store]) and both call back into client
      functions.  One [World] is threaded through every method: the bus,
      the store, the arrays the store's [history] can refer to, the clock
      [Date.now()] reads, and the console.
    - A function object is its identity [Fn].  What it does when it is
      called is given by the parameter [call] of the semantics: from the
      receiver, the arguments and the world to the world it leaves and to
      the value it returns or the exception it throws.  Calls it makes back
      into the bus or the store are part of that step.  Client functions
      always complete.
    - Values are passed by value.  The state record a mutation function or
      a subscriber receives is the live object of the store, so what the
      callee writes to it is what its step writes to [state (store w)].
      The copies [{ ...this.state }] are plain values as well: that a
      nested array is shared between a copy and the live record is not
      represented, so no statement below reads a nested array or record
      out of a copy that client code ran after.  The history array is an
      object with an identity, as [getHistory] hands out a copy of it.
    - [dispatch] is an [async] function: what follows its [await] runs in
      a later job, in the world the rest of the program has left by then.
      That world change is the parameter [meanwhile] of [dispatch].
    - [emit] iterates an array copy of a Set, [notifySubscribers] the live
      Set, which a callback can grow without end: the latter takes fuel,
      and [OutOfFuel] is the outcome of a method that is still running.
    - Every call of a client function is recorded in a trace, with the place
      it was called from. *)

From stdpp Require Import gmap strings list fin_maps.

Local Open Scope Z_scope.
Local Set Warnings "-register-all".

(** ** JavaScript values

    [VNum n] is the number [n], for the integers a number holds exactly;
    [NaN], the infinities and fractions are not represented.  [VFn] is a
    function object, by its identity. *)

Inductive Value : Type :=
| VUndefined
| VNull
| VBool (b : bool)
| VNum (n : Z)
| VStr (s : string)
| VArr (items : list Value)
| VObj (props : list (string * Value))
| VNative (name : string)
| VFn (f : nat).

(** An object literal, as the ordered list of its own properties. *)
Abbreviation Props := (list (string * Value)).

(** ToBoolean, on the values of the model. *)
Definition truthy (v : Value) : bool :=
  match v with
  | VUndefined | VNull => false
  | VBool b => b
  | VNum n => negb (n =? 0)
  | VStr s => negb (String.eqb s "")
  | VArr _ | VObj _ | VNative _ | VFn _ => true
  end.

(** [a || b] *)
Definition js_or (a b : Value) : Value := if truthy a then a else b.

(** A parameter declared [x = null]: only [undefined] takes the default. *)
Definition default_null (v : Value) : Value :=
  match v with VUndefined => VNull | _ => v end.

Fixpoint prop_get (k : string) (o : Props) : Value :=
  match o with
  | [] => VUndefined
  | (k', v) :: o' => if String.eqb k k' then v else prop_get k o'
  end.

Fixpoint prop_set (k : string) (v : Value) (o : Props) : Props :=
  match o with
  | [] => [(k, v)]
  | (k', v') :: o' =>
      if String.eqb k k' then (k, v) :: o' else (k', v') :: prop_set k v o'
  end.

(** What a [throw] carries. *)
Inductive Exn : Type :=
| JsError (message : string)
| JsTypeError (message : string)
| Raised (v : Value).

(** How a call of a client function ends. *)
Inductive Completion : Type :=
| Returned (v : Value)
| Threw (e : Exn).

(** Identity of a function object ([===] on functions). *)
Abbreviation Fn := nat (only parsing).

(** ** The built-in [Set]

    ECMAScript keeps the entries of a Set in insertion order, [delete]
    leaves a hole in place of the entry, and [forEach] walks that list by
    index while it can still grow. *)

Section JSSet.
Context {A : Type} (same : A -> A -> bool).

Definition set_has (x : A) (s : list (option A)) : bool :=
  existsb (fun e => match e with Some y => same x y | None => false end) s.

Definition set_add (x : A) (s : list (option A)) : list (option A) :=
  if set_has x s then s else s ++ [Some x].

Fixpoint set_delete (x : A) (s : list (option A)) : list (option A) :=
  match s with
  | [] => []
  | Some y :: s' => if same x y then None :: s' else Some y :: set_delete x s'
  | None :: s' => None :: set_delete x s'
  end.

(** [Array.from(s)] *)
Definition set_values (s : list (option A)) : list A := omap id s.

(** [s.size] *)
Definition set_size (s : list (option A)) : nat := length (set_values s).

End JSSet.

(** [a.slice(start)] on an array of length [length a]. *)
Definition slice_from {A : Type} (start : Z) (a : list A) : list A :=
  let len := Z.of_nat (length a) in
  let k := if start <? 0 then Z.max (len + start) 0 else Z.min start len in
  drop (Z.to_nat k) a.

(** ** Objects of the two classes *)

(** [{ callback, once, context }]; [lid] is the identity of the object. *)
Record Listener : Type := MkListener {
  lid : nat;
  callback : Fn;
  once_flag : Value;
  context : Value
}.

Definition same_listener (a b : Listener) : bool := Nat.eqb (lid a) (lid b).

(** The listener object as a value, the receiver of [listener.callback(data)]. *)
Definition listener_object (l : Listener) : Value :=
  VObj [("callback", VFn (callback l)); ("once", once_flag l);
        ("context", context l)].

Record EventBus : Type := MkEventBus {
  events : gmap string (list (option Listener));
  debug : bool;
  next_lid : nat
}.

(** The entry [addToHistory] receives from [commit]. *)
Record HistoryEntry : Type := MkHistoryEntry {
  h_type : string;
  h_name : string;
  h_payload : Value;
  h_prevState : Props;
  h_newState : Props;
  h_timestamp : Z
}.

(** [history] is a reference to an array in [arrays] of the world: the
    class both pushes to that array in place and replaces the reference. *)
Record Store : Type := MkStore {
  state : Props;
  mutations : gmap string Fn;
  actions : gmap string Fn;
  getters : gmap string Fn;
  subscribers : list (option Fn);
  isCommitting : bool;
  history : nat;
  maxHistorySize : Z
}.

Inductive LogLevel : Type := LogInfo | LogWarn | LogError.

Record LogLine : Type := MkLogLine {
  level : LogLevel;
  text : string;
  thrown : option Exn
}.

Record World : Type := MkWorld {
  bus : EventBus;
  store : Store;
  arrays : gmap nat (list HistoryEntry);
  clock : Z;
  console : list LogLine
}.

(** ** Record updates *)

Definition set_bus (b : EventBus) (w : World) : World :=
  MkWorld b (store w) (arrays w) (clock w) (console w).
Definition set_store (s : Store) (w : World) : World :=
  MkWorld (bus w) s (arrays w) (clock w) (console w).
Definition set_arrays (h : gmap nat (list HistoryEntry)) (w : World) : World :=
  MkWorld (bus w) (store w) h (clock w) (console w).
Definition log_line (l : LogLine) (w : World) : World :=
  MkWorld (bus w) (store w) (arrays w) (clock w) (console w ++ [l]).

Definition set_events (e : gmap string (list (option Listener))) (b : EventBus) : EventBus :=
  MkEventBus e (debug b) (next_lid b).

Definition set_state (st : Props) (s : Store) : Store :=
  MkStore st (mutations s) (actions s) (getters s) (subscribers s)
          (isCommitting s) (history s) (maxHistorySize s).
Definition set_mutations (m : gmap string Fn) (s : Store) : Store :=
  MkStore (state s) m (actions s) (getters s) (subscribers s)
          (isCommitting s) (history s) (maxHistorySize s).
Definition set_actions (m : gmap string Fn) (s : Store) : Store :=
  MkStore (state s) (mutations s) m (getters s) (subscribers s)
          (isCommitting s) (history s) (maxHistorySize s).
Definition set_getters (m : gmap string Fn) (s : Store) : Store :=
  MkStore (state s) (mutations s) (actions s) m (subscribers s)
          (isCommitting s) (history s) (maxHistorySize s).
Definition set_subscribers (l : list (option Fn)) (s : Store) : Store :=
  MkStore (state s) (mutations s) (actions s) (getters s) l
          (isCommitting s) (history s) (maxHistorySize s).
Definition set_isCommitting (b : bool) (s : Store) : Store :=
  MkStore (state s) (mutations s) (actions s) (getters s) (subscribers s)
          b (history s) (maxHistorySize s).
Definition set_history (r : nat) (s : Store) : Store :=
  MkStore (state s) (mutations s) (actions s) (getters s) (subscribers s)
          (isCommitting s) r (maxHistorySize s).
Definition set_maxHistorySize (n : Z) (s : Store) : Store :=
  MkStore (state s) (mutations s) (actions s) (getters s) (subscribers s)
          (isCommitting s) (history s) n.

(** ** Arrays on the heap *)

(** The array a reference points to. *)
Definition deref (r : nat) (w : World) : list HistoryEntry :=
  default [] (arrays w !! r).

(** A new array object: a reference no live array has. *)
Definition alloc (a : list HistoryEntry) (w : World) : nat * World :=
  let r := fresh (dom (arrays w)) in
  (r, set_arrays (<[r := a]> (arrays w)) w).

(** An in-place update of the array at [r] ([push], [pop], [reverse], ...). *)
Definition array_update (r : nat) (f : list HistoryEntry -> list HistoryEntry)
    (w : World) : World :=
  set_arrays (<[r := f (deref r w)]> (arrays w)) w.

(** ** Calls, completions and the trace *)

(** Where in the two classes a client function is called from. *)
Inductive Site : Type :=
| AtListener (event : string) (l : nat)
| AtSubscriber
| AtMutation (name : string)
| AtAction (name : string)
| AtGetter (name : string).

Record Invocation : Type := MkInvocation {
  inv_site : Site;
  inv_fn : Fn;
  inv_this : Value;
  inv_args : list Value;
  inv_result : Completion
}.

(** A method either returns, throws, or is still running when the fuel
    that bounds its [forEach] over a live Set is used up. *)
Inductive Outcome (A : Type) : Type :=
| Ret (a : A)
| Throw (e : Exn)
| OutOfFuel.
Arguments Ret {A} a.
Arguments Throw {A} e.
Arguments OutOfFuel {A}.

Record Step (A : Type) : Type := MkStep {
  outcome : Outcome A;
  after : World;
  trace : list Invocation
}.
Arguments MkStep {A} _ _ _.
Arguments outcome {A} _.
Arguments after {A} _.
Arguments trace {A} _.

Definition M (A : Type) : Type := World -> Step A.

Definition ret {A : Type} (a : A) : M A := fun w => MkStep (Ret a) w [].

Definition bind {A B : Type} (m : M A) (k : A -> M B) : M B :=
  fun w =>
    let s := m w in
    match outcome s with
    | Ret a =>
        let s' := k a (after s) in
        MkStep (outcome s') (after s') (trace s ++ trace s')
    | Throw e => MkStep (Throw e) (after s) (trace s)
    | OutOfFuel => MkStep OutOfFuel (after s) (trace s)
    end.

Notation "'let*' x := m 'in' k" := (bind m (fun x => k))
  (at level 10, x name, m at level 100, k at level 200).
Notation "m ;; k" := (bind m (fun _ => k))
  (at level 100, k at level 200, right associativity).

Definition throw {A : Type} (e : Exn) : M A := fun w => MkStep (Throw e) w [].
Definition out_of_fuel {A : Type} : M A := fun w => MkStep OutOfFuel w [].
Definition gets {A : Type} (f : World -> A) : M A := fun w => MkStep (Ret (f w)) w [].
Definition modify (f : World -> World) : M unit := fun w => MkStep (Ret tt) (f w) [].

(** [try { m } catch (error) { h error }] *)
Definition try_catch {A : Type} (m : M A) (h : Exn -> M A) : M A :=
  fun w =>
    let s := m w in
    match outcome s with
    | Throw e =>
        let s' := h e (after s) in
        MkStep (outcome s') (after s') (trace s ++ trace s')
    | _ => s
    end.

(** [try { m } finally { f }], for an [f] that completes normally. *)
Definition try_finally {A : Type} (m : M A) (f : World -> World) : M A :=
  fun w =>
    let s := m w in
    match outcome s with
    | OutOfFuel => s
    | _ => MkStep (outcome s) (f (after s)) (trace s)
    end.

(** [a.forEach(body)] on an array no one else holds. *)
Fixpoint forEach {A : Type} (body : A -> M unit) (a : list A) : M unit :=
  match a with
  | [] => ret tt
  | x :: a' => body x ;; forEach body a'
  end.

(** [s.forEach(body)] on a live Set [get w], from entry [index] on. *)
Fixpoint set_forEach {A : Type} (fuel : nat) (get : World -> list (option A))
    (body : A -> M unit) (index : nat) : M unit :=
  match fuel with
  | O => out_of_fuel
  | S fuel' =>
      fun w =>
        match get w !! index with
        | None => ret tt w
        | Some None => set_forEach fuel' get body (S index) w
        | Some (Some x) =>
            (body x ;; set_forEach fuel' get body (S index)) w
        end
  end.

(** [console.error(t, e)] *)
Definition console_error (t : string) (e : Exn) : M unit :=
  modify (log_line (MkLogLine LogError t (Some e))).

(** ** The methods

    [call f this args w] is what the function object [f] does when it is
    called with receiver [this] and arguments [args] in world [w]: the
    world it leaves and whether it returns or throws.  Every client
    function of the two classes (listener callbacks, subscribers, mutation,
    action and getter functions) is called through [invoke], which also
    records the call in the trace. *)

Section Semantics.
Variable call : Fn -> Value -> list Value -> World -> Completion * World.

Definition invoke (site : Site) (f : Fn) (this : Value) (args : list Value)
    : M Value :=
  fun w =>
    let '(c, w') := call f this args w in
    MkStep (match c with Returned v => Ret v | Threw e => Throw e end)
           w' [MkInvocation site f this args c].

(** *** EventBus *)

(** [new EventBus()] *)
Definition new_bus : EventBus := MkEventBus ∅ false 0.

(** The [options] argument of [on]; an absent property is [undefined]. *)
Record Options : Type := MkOptions {
  opt_once : Value;
  opt_context : Value
}.

Definition no_options : Options := MkOptions VUndefined VUndefined.

(** The closures [on] and [subscribe] return, by what they capture. *)
Inductive Unsubscribe : Type :=
| OffClosure (event : string) (cb : Fn)
| DeleteClosure (cb : Fn).

Definition bus_log (t : string) (w : World) : World :=
  if debug (bus w) then log_line (MkLogLine LogInfo t None) w else w.

(** [{ callback, once: options.once || false,
      context: options.context || null }], a new object [id]. *)
Definition make_listener (id : nat) (cb : Fn) (options : Options) : Listener :=
  MkListener id cb
             (js_or (opt_once options) (VBool false))
             (js_or (opt_context options) VNull).

Definition on (event : string) (cb : Fn) (options : Options) (w : World)
    : Unsubscribe * World :=
  let b := bus w in
  let ev :=
    match events b !! event with
    | Some _ => events b
    | None => <[event := []]> (events b)
    end in
  let listener := make_listener (next_lid b) cb options in
  let ev' := alter (set_add same_listener listener) event ev in
  let w' := set_bus (MkEventBus ev' (debug b) (S (next_lid b))) w in
  (OffClosure event cb,
   bus_log ("📡 EventBus: подписка на '" +:+ event +:+ "'") w').

Definition once (event : string) (cb : Fn) (ctx : Value) (w : World)
    : Unsubscribe * World :=
  on event cb (MkOptions (VBool true) (default_null ctx)) w.

Definition off (event : string) (cb : Fn) (w : World) : World :=
  match events (bus w) !! event with
  | None => w
  | Some listeners =>
      match find (fun l => Nat.eqb (callback l) cb) (set_values listeners) with
      | Some toRemove =>
          let ev' := alter (set_delete same_listener toRemove) event
                           (events (bus w)) in
          bus_log ("📡 EventBus: отписка от '" +:+ event +:+ "'")
                  (set_bus (set_events ev' (bus w)) w)
      | None => w
      end
  end.

(** [this.events.get(event).delete(listener)] *)
Definition delete_listener (event : string) (listener : Listener) : M unit :=
  let* cur := gets (fun w => events (bus w) !! event) in
  match cur with
  | None => throw (JsTypeError "Cannot read properties of undefined")
  | Some _ =>
      modify (fun w =>
        set_bus (set_events
                   (alter (set_delete same_listener listener) event
                          (events (bus w)))
                   (bus w)) w)
  end.

(** The body of the [forEach] in [emit].  [listener.callback(data)] is a
    call of a member of [listener], so the receiver is the listener
    object. *)
Definition emit_one (event : string) (data : Value) (listener : Listener)
    : M unit :=
  try_catch
    ((if truthy (context listener)
      then invoke (AtListener event (lid listener)) (callback listener)
                  (context listener) [data]
      else invoke (AtListener event (lid listener)) (callback listener)
                  (listener_object listener) [data]) ;;
     if truthy (once_flag listener)
     then delete_listener event listener
     else ret tt)
    (fun error =>
       console_error ("❌ Ошибка в обработчике события '" +:+ event +:+ "':")
                     error).

Definition emit (event : string) (data : Value) : M unit :=
  let data := default_null data in
  let* registered := gets (fun w => events (bus w) !! event) in
  match registered with
  | None => ret tt
  | Some _ =>
      modify (bus_log ("📡 EventBus: событие '" +:+ event +:+ "'")) ;;
      let* current := gets (fun w => events (bus w) !! event) in
      let listeners := set_values (default [] current) in
      forEach (emit_one event data) listeners
  end.

Definition clear (w : World) : World :=
  bus_log "📡 EventBus: все подписки очищены"
          (set_bus (set_events ∅ (bus w)) w).

Definition getListenerCount (event : string) (w : World) : nat :=
  match events (bus w) !! event with
  | Some listeners => set_size listeners
  | None => 0%nat
  end.

Definition setDebug (enabled : bool) (w : World) : World :=
  set_bus (MkEventBus (events (bus w)) enabled (next_lid (bus w))) w.

(** *** Store *)

(** [new Store(initialState)], installed as the store of the world. *)
Definition new_store (initialState : Props) (w : World) : World :=
  let '(r, w1) := alloc [] w in
  set_store (MkStore initialState ∅ ∅ ∅ [] false r 50) w1.

Definition warn_if (b : bool) (t : string) (w : World) : World :=
  if b then log_line (MkLogLine LogWarn t None) w else w.

Definition registerMutation (name : string) (mutationFn : Fn) (w : World)
    : World :=
  let w1 := warn_if (bool_decide (is_Some (mutations (store w) !! name)))
                    ("⚠️ Мутация '" +:+ name +:+ "' уже зарегистрирована") w in
  set_store (set_mutations (<[name := mutationFn]> (mutations (store w1)))
                           (store w1)) w1.

Definition registerAction (name : string) (actionFn : Fn) (w : World)
    : World :=
  let w1 := warn_if (bool_decide (is_Some (actions (store w) !! name)))
                    ("⚠️ Действие '" +:+ name +:+ "' уже зарегистрировано") w in
  set_store (set_actions (<[name := actionFn]> (actions (store w1)))
                         (store w1)) w1.

Definition registerGetter (name : string) (getterFn : Fn) (w : World)
    : World :=
  let w1 := warn_if (bool_decide (is_Some (getters (store w) !! name)))
                    ("⚠️ Геттер '" +:+ name +:+ "' уже зарегистрирован") w in
  set_store (set_getters (<[name := getterFn]> (getters (store w1)))
                         (store w1)) w1.

Definition addToHistory (entry : HistoryEntry) (w : World) : World :=
  let w1 := array_update (history (store w)) (fun a => a ++ [entry]) w in
  let a := deref (history (store w1)) w1 in
  if Z.of_nat (length a) >? maxHistorySize (store w1)
  then
    let '(r, w2) := alloc (slice_from (- maxHistorySize (store w1)) a) w1 in
    set_store (set_history r (store w2)) w2
  else w1.

(** Returns the reference of the new array [[...this.history]]. *)
Definition getHistory (w : World) : nat * World :=
  alloc (deref (history (store w)) w) w.

Definition clearHistory (w : World) : World :=
  let '(r, w1) := alloc [] w in
  set_store (set_history r (store w1)) w1.

Definition setMaxHistorySize (size : Z) (w : World) : World :=
  let w1 := set_store (set_maxHistorySize size (store w)) w in
  let a := deref (history (store w1)) w1 in
  if Z.of_nat (length a) >? size
  then
    let '(r, w2) := alloc (slice_from (- size) a) w1 in
    set_store (set_history r (store w2)) w2
  else w1.

Definition getState (w : World) : Props := state (store w).

Definition subscribe (cb : Fn) (w : World) : Unsubscribe * World :=
  (DeleteClosure cb,
   set_store (set_subscribers (set_add Nat.eqb cb (subscribers (store w)))
                              (store w)) w).

(** Calling a closure returned by [on] or by [subscribe]. *)
Definition unsubscribe (u : Unsubscribe) (w : World) : World :=
  match u with
  | OffClosure event cb => off event cb w
  | DeleteClosure cb =>
      set_store (set_subscribers
                   (set_delete Nat.eqb cb (subscribers (store w)))
                   (store w)) w
  end.

(** The third argument of a subscriber. *)
Definition mutation_descriptor (name : string) (payload : Value) : Value :=
  VObj [("type", VStr "mutation"); ("name", VStr name); ("payload", payload)].

(** The body of the [forEach] in [notifySubscribers]; [newState] is the
    live state object, read when the subscriber is called. *)
Definition notify_one (prevState : Props) (mutation : Value) (cb : Fn)
    : M unit :=
  try_catch
    (let* newState := gets (fun w => state (store w)) in
     invoke AtSubscriber cb VUndefined
            [VObj prevState; VObj newState; mutation] ;;
     ret tt)
    (fun error => console_error "❌ Ошибка в подписчике store:" error).

Definition notifySubscribers (fuel : nat) (prevState : Props)
    (mutation : Value) : M unit :=
  set_forEach fuel (fun w => subscribers (store w))
              (notify_one prevState mutation) 0%nat.

(** The [try] block of [commit].  [prevState] is the value of the state
    record when the copy [{ ...this.state }] was taken.  The copy has the
    primitive properties of that value for good; an array or record it
    shares with the live state shows what client code has since written
    into it in place, which this value does not follow. *)
Definition commit_body (fuel : nat) (mutationName : string) (mutation : Fn)
    (payload : Value) (prevState : Props) : M unit :=
  let* live := gets (fun w => state (store w)) in
  invoke (AtMutation mutationName) mutation VUndefined [VObj live; payload] ;;
  let* newState := gets (fun w => state (store w)) in
  let* now := gets clock in
  modify (addToHistory
            (MkHistoryEntry "mutation" mutationName payload prevState
                            newState now)) ;;
  notifySubscribers fuel prevState (mutation_descriptor mutationName payload) ;;
  let* live' := gets (fun w => state (store w)) in
  emit "store:mutation"
       (VObj [("name", VStr mutationName); ("payload", payload);
              ("prevState", VObj prevState); ("newState", VObj live')]).

Definition commit (fuel : nat) (mutationName : string) (payload : Value)
    : M unit :=
  let payload := default_null payload in
  let* found := gets (fun w => mutations (store w) !! mutationName) in
  match found with
  | None => throw (JsError ("Мутация '" +:+ mutationName +:+ "' не найдена"))
  | Some mutation =>
      let* prevState := gets (fun w => state (store w)) in
      modify (fun w => set_store (set_isCommitting true (store w)) w) ;;
      try_finally
        (try_catch
           (commit_body fuel mutationName mutation payload prevState)
           (fun error =>
              console_error ("❌ Ошибка в мутации '" +:+ mutationName +:+ "':")
                            error ;;
              throw error))
        (fun w => set_store (set_isCommitting false (store w)) w)
  end.

(** The [context] object an action receives; its three capabilities are
    closures over the store. *)
Definition action_context (st : Props) : Value :=
  VObj [("state", VObj st); ("commit", VNative "commit");
        ("dispatch", VNative "dispatch"); ("getters", VNative "getters")].

(** [await m]: [m] settles, and the function goes on in a later job, after
    the rest of the program has turned the world into [meanwhile] of it. *)
Definition await {A : Type} (meanwhile : World -> World) (m : M A) : M A :=
  fun w =>
    let s := m w in
    match outcome s with
    | OutOfFuel => s
    | _ => MkStep (outcome s) (meanwhile (after s)) (trace s)
    end.

(** [dispatch], an [async] function, up to the settlement of the promise it
    returns: [Ret] is the value the promise is fulfilled with, [Throw] what
    it is rejected with.  The completion of the call of the action is how
    [action(context, payload)] settles: the value it returned or its promise
    was fulfilled with, or what it threw or its promise was rejected with.
    What follows the [await] runs in the world [meanwhile] gives (after a
    throw of the action before any [await], at once: there [meanwhile] is
    the identity). *)
Definition dispatch (meanwhile : World -> World) (actionName : string)
    (payload : Value) : M Value :=
  let payload := default_null payload in
  let* found := gets (fun w => actions (store w) !! actionName) in
  match found with
  | None => throw (JsError ("Действие '" +:+ actionName +:+ "' не найдено"))
  | Some action =>
      try_catch
        (let* live := gets (fun w => state (store w)) in
         let* result :=
           await meanwhile
             (invoke (AtAction actionName) action VUndefined
                     [action_context live; payload]) in
         emit "store:action"
              (VObj [("name", VStr actionName); ("payload", payload);
                     ("result", result)]) ;;
         ret result)
        (fun error =>
           console_error ("❌ Ошибка в действии '" +:+ actionName +:+ "':")
                         error ;;
           throw error)
  end.

Definition getGetter (getterName : string) : M Value :=
  let* found := gets (fun w => getters (store w) !! getterName) in
  match found with
  | None => throw (JsError ("Геттер '" +:+ getterName +:+ "' не найден"))
  | Some getter =>
      let* live := gets (fun w => state (store w)) in
      invoke (AtGetter getterName) getter VUndefined
             [VObj live; VNative "getters"]
  end.

End Semantics.

(** * Observations

    What the statements below read off a world or a trace. *)

(** [Array.from(this.events.get(event))], empty for an unknown event. *)
Definition listeners_of (event : string) (w : World) : list Listener :=
  set_values (default [] (events (bus w) !! event)).

(** The listener objects called for [event] in a trace, by identity. *)
Definition listener_calls (event : string) (t : list Invocation) : list nat :=
  omap (fun i =>
          match inv_site i with
          | AtListener ev l => if String.eqb ev event then Some l else None
          | _ => None
          end) t.

(** The functions called as store subscribers in a trace. *)
Definition subscriber_calls (t : list Invocation) : list Fn :=
  omap (fun i =>
          match inv_site i with
          | AtSubscriber => Some (inv_fn i)
          | _ => None
          end) t.

(** The entries of the store's history array. *)
Definition history_entries (w : World) : list HistoryEntry :=
  deref (history (store w)) w.

(** The history of the store refers to an array that exists. *)
Definition history_live (w : World) : Prop :=
  is_Some (arrays w !! history (store w)).

(** Listener objects are created by [on] only, which numbers them. *)
Definition bus_wf (w : World) : Prop :=
  forall event s l,
    events (bus w) !! event = Some s -> In (Some l) s ->
    (lid l < next_lid (bus w))%nat.

(** The receiver a listener is called with: its context when that is
    truthy, the listener object otherwise. *)
Definition receiver (l : Listener) : Value :=
  if truthy (context l) then context l else listener_object l.

(** The entry [commit] appends: [prevState] is the copy taken before the
    mutation ran, in the world [w'] the mutation function returned in. *)
Definition commit_entry (name : string) (payload : Value) (prevState : Props)
    (w' : World) : HistoryEntry :=
  MkHistoryEntry "mutation" name payload prevState (state (store w')) (clock w').

(** The data of the [store:mutation] event. *)
Definition mutation_event (name : string) (payload : Value)
    (prevState newState : Props) : Value :=
  VObj [("name", VStr name); ("payload", payload);
        ("prevState", VObj prevState); ("newState", VObj newState)].

(** The data of the [store:action] event. *)
Definition action_event (name : string) (payload result : Value) : Value :=
  VObj [("name", VStr name); ("payload", payload); ("result", result)].

(** A client function called the way [emit] calls a listener (one
    argument) or [notifySubscribers] a subscriber (three), not the way
    [commit] calls a mutation function (two), leaves the part [proj] of
    the world alone. *)
Definition observers_keep {X : Type} (proj : World -> X)
    (call : Fn -> Value -> list Value -> World -> Completion * World) : Prop :=
  forall f this args w,
    length args <> 2%nat -> proj (snd (call f this args w)) = proj w.

(** The error [commit] throws for a name that is not in the mutation
    registry. *)
Definition unknown_mutation (name : string) : Exn :=
  JsError ("Мутация '" +:+ name +:+ "' не найдена").

(** The world in which [commit] calls the mutation function. *)
Definition committing (w : World) : World :=
  set_store (set_isCommitting true (store w)) w.

(** What [commit] leaves of the world [w'] a throwing mutation function
    returned in: the error is logged and the flag is lowered. *)
Definition abandoned (name : string) (e : Exn) (w' : World) : World :=
  let w1 := log_line (MkLogLine LogError ("❌ Ошибка в мутации '" +:+ name +:+ "':")
                                (Some e)) w' in
  set_store (set_isCommitting false (store w1)) w1.

(** No client function changes the subscriber Set of the store. *)
Definition keeps_subscribers
    (call : Fn -> Value -> list Value -> World -> Completion * World) : Prop :=
  forall f this args w,
    subscribers (store (snd (call f this args w))) = subscribers (store w).

(** A client function called the way [notifySubscribers] calls a
    subscriber, with three arguments, leaves the subscriber Set alone. *)
Definition subscribers_settled
    (call : Fn -> Value -> list Value -> World -> Completion * World) : Prop :=
  forall f this args w,
    length args = 3%nat ->
    subscribers (store (snd (call f this args w))) = subscribers (store w).

(** No client function changes the registry of mutations. *)
Definition keeps_mutations
    (call : Fn -> Value -> list Value -> World -> Completion * World) : Prop :=
  forall f this args w,
    mutations (store (snd (call f this args w))) = mutations (store w).

(** The last [n] elements of a list. *)
Definition last_entries {A : Type} (n : nat) (l : list A) : list A :=
  drop (length l - n) l.

(** The part of the world that holds the history. *)
Definition history_part (w : World) : gmap nat (list HistoryEntry) * nat * Z :=
  (arrays w, history (store w), maxHistorySize (store w)).


(** A run of commits, each of which has to return. *)
Fixpoint commits
    (call : Fn -> Value -> list Value -> World -> Completion * World)
    (fuel : nat) (ps : list (string * Value)) (w : World) : option World :=
  match ps with
  | [] => Some w
  | (m, p) :: ps' =>
      let s := commit call fuel m p w in
      match outcome s with
      | Ret _ => commits call fuel ps' (after s)
      | _ => None
      end
  end.

(** ** Scenarios *)

(** A world with an empty bus and a fresh store. *)
Definition empty_world : World :=
  new_store [] (MkWorld new_bus (MkStore [] ∅ ∅ ∅ [] false 0 50) ∅ 0 []).

(** Function 1 throws, every other function returns; none touches the
    world. *)
Definition first_throws (f : Fn) (this : Value) (args : list Value) (w : World)
    : Completion * World :=
  if Nat.eqb f 1 then (Threw (JsError "boom"), w) else (Returned VUndefined, w).

(** Two listeners on [x] (functions 1 and 2), two store subscribers
    (functions 1 and 2) and the mutation [M] (function 3). *)
Definition isolation_world : World :=
  registerMutation "M" 3%nat
    (snd (subscribe 2%nat
       (snd (subscribe 1%nat
          (snd (on "x" 2%nat no_options
             (snd (on "x" 1%nat no_options empty_world)))))))).

(** Function 1 registers function 2 as a listener on [x] each time it is
    called; every function returns. *)
Definition adds_listener (f : Fn) (this : Value) (args : list Value) (w : World)
    : Completion * World :=
  if Nat.eqb f 1
  then (Returned VUndefined, snd (on "x" 2%nat no_options w))
  else (Returned VUndefined, w).

(** One listener on [x], function 1. *)
Definition one_listener_world : World :=
  snd (on "x" 1%nat no_options empty_world).

(** The action [run] (function 1) and a listener on [store:action]
    (function 2). *)
Definition action_world : World :=
  registerAction "run" 1%nat
    (snd (on "store:action" 2%nat no_options empty_world)).

(** What runs between the call of an action and the continuation of
    [dispatch]: function 3 is registered as a listener on [store:action]. *)
Definition registers_late (w : World) : World :=
  snd (on "store:action" 3%nat no_options w).

(** Every function returns 7 and leaves the world alone. *)
Definition returns_seven (f : Fn) (this : Value) (args : list Value) (w : World)
    : Completion * World :=
  (Returned (VNum 7), w).

(** The mutation [M], function 1. *)
Definition one_mutation_world : World := registerMutation "M" 1%nat empty_world.

(** One listener on [T], registered with [once], function 1. *)
Definition once_world : World := snd (once "T" 1%nat VUndefined empty_world).

(** The mutation [M] (function 1) in a store whose capacity was set to 0. *)
Definition zero_capacity_world : World := setMaxHistorySize 0 one_mutation_world.

(** Three commits of [M], with payloads 1, 2 and 3. *)
Definition three_commits (w : World) : World :=
  after (commit returns_seven 5 "M" (VNum 3)
    (after (commit returns_seven 5 "M" (VNum 2)
      (after (commit returns_seven 5 "M" (VNum 1) w))))).

(** What the function [f] returns or throws, and the state record it
    leaves, depend on its arguments and on the state record only: not on
    the clock, nor on anything else in the world. *)
Definition reads_state_only
    (call : Fn -> Value -> list Value -> World -> Completion * World)
    (f : Fn) : Prop :=
  forall this args w1 w2,
    state (store w1) = state (store w2) ->
    fst (call f this args w1) = fst (call f this args w2) /\
    state (store (snd (call f this args w1)))
    = state (store (snd (call f this args w2))).

(** The function [f] is idempotent on the state record: when it has
    returned, a call with the same payload on a state record equal to the
    one it left returns as well and leaves that record as it is, whatever
    the rest of the world. *)
Definition idempotent_mutation
    (call : Fn -> Value -> list Value -> World -> Completion * World)
    (f : Fn) : Prop :=
  forall this p w v w1,
    call f this [VObj (state (store w)); p] w = (Returned v, w1) ->
    forall w2,
      state (store w2) = state (store w1) ->
      exists v' w3,
        call f this [VObj (state (store w2)); p] w2 = (Returned v', w3) /\
        state (store w3) = state (store w1).

(** Committing the mutation twice leaves the state one commit leaves. *)
Definition commit_idempotent
    (call : Fn -> Value -> list Value -> World -> Completion * World)
    (fuel : nat) (m : string) (p : Value) (w : World) : Prop :=
  state (store (after (commit call fuel m p (after (commit call fuel m p w)))))
  = state (store (after (commit call fuel m p w))).

(** Function 1 is the mutation [ADD_ORDER] of [DataModule.js],
    [(state, order) => { state.orders.push(order); }], called with the live
    state record as its first argument; called in any other way it throws
    and changes nothing. *)
Definition add_order (f : Fn) (this : Value) (args : list Value) (w : World)
    : Completion * World :=
  if Nat.eqb f 1 then
    match args with
    | [VObj _; order] =>
        match prop_get "orders" (state (store w)) with
        | VArr orders =>
            (Returned VUndefined,
             set_store
               (set_state (prop_set "orders" (VArr (orders ++ [order]))
                                    (state (store w)))
                          (store w)) w)
        | _ => (Threw (JsTypeError "Cannot read properties of undefined"), w)
        end
    | _ => (Threw (JsTypeError "Cannot read properties of undefined"), w)
    end
  else (Returned VUndefined, w).

(** A store with an empty list of orders and the mutation [ADD_ORDER]. *)
Definition orders_world : World :=
  registerMutation "ADD_ORDER" 1%nat
    (new_store [("orders", VArr [])] empty_world).

(** Function 1 is the mutation [SET_ORDERS] of [DataModule.js],
    [(state, orders) => { state.orders = orders; }], called with the live
    state record as its first argument; called in any other way it throws
    and changes nothing.  Every other function returns at once. *)
Definition set_orders (f : Fn) (this : Value) (args : list Value) (w : World)
    : Completion * World :=
  if Nat.eqb f 1 then
    match args with
    | [VObj _; orders] =>
        (Returned VUndefined,
         set_store
           (set_state (prop_set "orders" orders (state (store w))) (store w)) w)
    | _ => (Threw (JsTypeError "Cannot set properties of undefined"), w)
    end
  else (Returned VUndefined, w).

(** A store with one order, a flag and the mutation [SET_ORDERS]; function
    2 is subscribed to the store and listens on [store:mutation]. *)
Definition set_orders_world : World :=
  registerMutation "SET_ORDERS" 1%nat
    (snd (subscribe 2%nat
       (snd (on "store:mutation" 2%nat no_options
          (new_store [("orders", VArr [VStr "o1"]); ("ready", VBool true)]
                     empty_world))))).

(** The same world at a later time. *)
Definition later (w : World) : World :=
  MkWorld (bus w) (store w) (arrays w) (clock w + 1000) (console w).

(** The mutation [M] is function 1; function 2 is subscribed to the store
    and listens on [store:mutation]. *)
Definition observed_mutation_world : World :=
  registerMutation "M" 1%nat
    (snd (subscribe 2%nat
       (snd (on "store:mutation" 2%nat no_options empty_world)))).

(** * Further observations *)

(** A list without the first element that satisfies [p]. *)
Fixpoint remove_first {A : Type} (p : A -> bool) (l : list A) : list A :=
  match l with
  | [] => []
  | x :: l' => if p x then l' else x :: remove_first p l'
  end.

(** The listener has the callback [cb] ([listener.callback === callback]). *)
Definition has_callback (cb : Fn) (l : Listener) : bool :=
  Nat.eqb (callback l) cb.

(** No two listener objects of an event have the same identity. *)
Definition bus_ids_unique (w : World) : Prop :=
  forall event, List.NoDup (map lid (listeners_of event w)).

(** How a client function was called: from where, which function, with
    which receiver and which arguments. *)
Definition call_shape (i : Invocation) : Site * Fn * Value * list Value :=
  (inv_site i, inv_fn i, inv_this i, inv_args i).

(** Whom a call went to: from where, which function, with which
    receiver. *)
Definition call_target (i : Invocation) : Site * Fn * Value :=
  (inv_site i, inv_fn i, inv_this i).

(** A primitive value: it is copied and compared by what it is. *)
Definition primitive (v : Value) : bool :=
  match v with
  | VUndefined | VNull | VBool _ | VNum _ | VStr _ => true
  | VArr _ | VObj _ | VNative _ | VFn _ => false
  end.

(** How [emit] calls the listener [l] of [event] with [data]. *)
Definition listener_call (event : string) (data : Value) (l : Listener)
    : Site * Fn * Value * list Value :=
  (AtListener event (lid l), callback l, receiver l, [data]).

(** How [notifySubscribers] calls the subscriber [cb]. *)
Definition subscriber_call (prevState newState : Props) (mutation : Value)
    (cb : Fn) : Site * Fn * Value * list Value :=
  (AtSubscriber, cb, VUndefined, [VObj prevState; VObj newState; mutation]).

(** Function 1 is registered twice on [x], then function 2 once. *)
Definition twice_registered_world : World :=
  snd (on "x" 2%nat no_options
    (snd (on "x" 1%nat (MkOptions (VBool true) VUndefined)
      (snd (on "x" 1%nat no_options empty_world))))).

Definition is_returned (c : Completion) : bool :=
  match c with Returned _ => true | Threw _ => false end.

(** The identities of the listeners among [ls] that were registered with
    [once] and whose call, the one at the same position of the trace of the
    round, returned. *)
Fixpoint once_done (ls : list Listener) (t : list Invocation) : list nat :=
  match ls, t with
  | l :: ls', i :: t' =>
      (if truthy (once_flag l) && is_returned (inv_result i)
       then [lid l] else [])
      ++ once_done ls' t'
  | _, _ => []
  end.

(** The listeners of [ls] whose identity is not in [ids]. *)
Definition without_ids (ids : list nat) (ls : list Listener) : list Listener :=
  List.filter (fun x => negb (existsb (Nat.eqb (lid x)) ids)) ls.

(** On [T]: function 2, then function 1 with [once], then function 2 with
    [once]. *)
Definition mixed_once_world : World :=
  snd (once "T" 2%nat VUndefined
    (snd (once "T" 1%nat VUndefined
      (snd (on "T" 2%nat no_options empty_world))))).

(** What listeners and subscribers are expected to leave alone: the bus,
    the state record and the subscriber Set. *)
Definition observed_part (w : World) : EventBus * Props * list (option Fn) :=
  (bus w, state (store w), subscribers (store w)).

(** Client functions called as listeners or as subscribers only observe. *)
Definition quiet_observers
    (call : Fn -> Value -> list Value -> World -> Completion * World) : Prop :=
  observers_keep observed_part call.

(** * The mutations of the data module

    [DataModule.js] registers, for each of the collections [users],
    [processes], [products] and [orders] of the state record, a mutation
    that replaces the collection, one that appends an item, one that
    updates the item with a given [id] and one that removes the items with
    a given [id].  Each is given as what it makes of the state record it
    is called with: the record it leaves, or the error it throws before it
    has written anything.  The values of the model hold no functions, so
    only an array has [push], [findIndex] and [filter]. *)

Definition not_an_object : Exn :=
  JsTypeError "Cannot read properties of undefined".

Definition not_a_function : Exn := JsTypeError "is not a function".

(** [v.id]: an error on [undefined] and [null]; the own property of a
    record; [undefined] on the values that have no such property. *)
Definition js_id (v : Value) : Exn + Value :=
  match v with
  | VUndefined | VNull => inl not_an_object
  | VObj ps => inr (prop_get "id" ps)
  | _ => inr VUndefined
  end.

(** [a === b].  Primitive values are equal when they are the same value,
    functions when they are the same function.  Two objects are equal only
    when they are the same object; an array or record value does not say
    which object it is, and two such values are taken for two objects: the
    result is the one of the code whenever one operand is [primitive], and
    the statements below compare to primitive values only. *)
Definition strict_eq (a b : Value) : bool :=
  match a, b with
  | VUndefined, VUndefined | VNull, VNull => true
  | VBool x, VBool y => Bool.eqb x y
  | VNum x, VNum y => Z.eqb x y
  | VStr x, VStr y => String.eqb x y
  | VFn f, VFn g => Nat.eqb f g
  | _, _ => false
  end.

(** The decimal numeral of an array index. *)
Fixpoint index_key_from (fuel n : nat) (acc : string) : string :=
  match fuel with
  | O => acc
  | S fuel' =>
      let acc' := String (Ascii.ascii_of_nat (48 + n mod 10)%nat) acc in
      if (n / 10 =? 0)%nat then acc' else index_key_from fuel' (n / 10) acc'
  end.

Definition index_key (n : nat) : string := index_key_from (S n) n "".

Fixpoint characters (s : string) : list Value :=
  match s with
  | EmptyString => []
  | String c s' => VStr (String c EmptyString) :: characters s'
  end.

(** The own enumerable properties [{ ...v }] copies: those of a record,
    the indices of an array or of a string (of ASCII text, a character of
    the model being a byte), none of another value.  Properties are kept
    in insertion order; that JavaScript lists the keys that are array
    indices first is not represented. *)
Definition own_props (v : Value) : Props :=
  match v with
  | VObj ps => ps
  | VArr xs => imap (fun i x => (index_key i, x)) xs
  | VStr s => imap (fun i x => (index_key i, x)) (characters s)
  | _ => []
  end.

(** [{ ...a, ...b }] for the own properties of [a] and of [b]. *)
Definition merge_props (a b : Props) : Props :=
  fold_left (fun acc kv => prop_set (fst kv) (snd kv) acc) b a.

(** The record has an own property [k]. *)
Definition has_prop (k : string) (o : Props) : bool :=
  existsb (fun kv => String.eqb k (fst kv)) o.

(** [xs.findIndex(u => u.id === updated.id)], counting from [i]: the
    callback reads [u.id], then [updated.id], for each item up to the first
    match. *)
Fixpoint find_index_id (updated : Value) (xs : list Value) (i : nat)
    : Exn + option nat :=
  match xs with
  | [] => inr None
  | u :: xs' =>
      match js_id u with
      | inl e => inl e
      | inr uid =>
          match js_id updated with
          | inl e => inl e
          | inr pid =>
              if strict_eq uid pid then inr (Some i)
              else find_index_id updated xs' (S i)
          end
      end
  end.

(** [xs.filter(u => u.id !== id)] *)
Fixpoint filter_other_ids (id : Value) (xs : list Value) : Exn + list Value :=
  match xs with
  | [] => inr []
  | u :: xs' =>
      match js_id u with
      | inl e => inl e
      | inr uid =>
          match filter_other_ids id xs' with
          | inl e => inl e
          | inr r => inr (if strict_eq uid id then r else u :: r)
          end
      end
  end.

(** What calling an array method on [state[key]] finds there. *)
Definition collection (key : string) (st : Props) : Exn + list Value :=
  match prop_get key st with
  | VArr xs => inr xs
  | VUndefined | VNull => inl not_an_object
  | _ => inl not_a_function
  end.

(** [(state, v) => { state[key] = v; }] *)
Definition set_collection (key : string) (st : Props) (v : Value)
    : Exn + Props :=
  inr (prop_set key v st).

(** [(state, item) => { state[key].push(item); }] *)
Definition add_item (key : string) (st : Props) (item : Value) : Exn + Props :=
  match collection key st with
  | inl e => inl e
  | inr xs => inr (prop_set key (VArr (xs ++ [item])) st)
  end.

(** [(state, updated) => {
       const index = state[key].findIndex(u => u.id === updated.id);
       if (index !== -1) {
         state[key][index] = { ...state[key][index], ...updated };
       } }] *)
Definition update_item (key : string) (st : Props) (updated : Value)
    : Exn + Props :=
  match collection key st with
  | inl e => inl e
  | inr xs =>
      match find_index_id updated xs 0 with
      | inl e => inl e
      | inr None => inr st
      | inr (Some i) =>
          let old := default VUndefined (xs !! i) in
          let merged := VObj (merge_props (own_props old) (own_props updated)) in
          inr (prop_set key (VArr (<[i := merged]> xs)) st)
      end
  end.

(** [(state, id) => { state[key] = state[key].filter(u => u.id !== id); }] *)
Definition remove_item (key : string) (st : Props) (id : Value) : Exn + Props :=
  match collection key st with
  | inl e => inl e
  | inr xs =>
      match filter_other_ids id xs with
      | inl e => inl e
      | inr xs' => inr (prop_set key (VArr xs') st)
      end
  end.

(** The items whose [id] is not [id], for items that have one to read. *)
Definition id_differs (id : Value) (u : Value) : bool :=
  match js_id u with
  | inr uid => negb (strict_eq uid id)
  | inl _ => false
  end.

(** Every item of the collection is an object or a primitive value other
    than [undefined] and [null]: reading its [id] does not throw. *)
Definition readable (xs : list Value) : Prop :=
  Forall (fun u => u <> VUndefined /\ u <> VNull) xs.

(** A mutation function called by [commit], with the live state record as
    its first argument: what it makes of the record is what the call does
    to the state of the store.  Called in any other way it is taken to
    throw and to change nothing. *)
Definition as_mutation (m : Props -> Value -> Exn + Props) (args : list Value)
    (w : World) : Completion * World :=
  match args with
  | [VObj _; payload] =>
      match m (state (store w)) payload with
      | inl e => (Threw e, w)
      | inr st => (Returned VUndefined, set_store (set_state st (store w)) w)
      end
  | _ => (Threw not_an_object, w)
  end.

(** The function [f] of the client code is the mutation [m]. *)
Definition is_mutation
    (call : Fn -> Value -> list Value -> World -> Completion * World)
    (f : Fn) (m : Props -> Value -> Exn + Props) : Prop :=
  forall this args w, call f this args w = as_mutation m args w.

Inductive MutationKind : Type := KSet | KAdd | KUpdate | KRemove.

Definition apply_kind (k : MutationKind) : string -> Props -> Value -> Exn + Props :=
  match k with
  | KSet => set_collection
  | KAdd => add_item
  | KUpdate => update_item
  | KRemove => remove_item
  end.

(** The mutations [setupStore] registers for the collections, in the order
    of the source; the function of the [n]-th line is function [n]. *)
Definition data_mutations : list (string * (MutationKind * string)) :=
  [ ("SET_USERS", (KSet, "users")); ("ADD_USER", (KAdd, "users"));
    ("UPDATE_USER", (KUpdate, "users")); ("REMOVE_USER", (KRemove, "users"));
    ("SET_PROCESSES", (KSet, "processes")); ("ADD_PROCESS", (KAdd, "processes"));
    ("UPDATE_PROCESS", (KUpdate, "processes"));
    ("REMOVE_PROCESS", (KRemove, "processes"));
    ("SET_PRODUCTS", (KSet, "products")); ("ADD_PRODUCT", (KAdd, "products"));
    ("UPDATE_PRODUCT", (KUpdate, "products"));
    ("REMOVE_PRODUCT", (KRemove, "products"));
    ("SET_ORDERS", (KSet, "orders")); ("ADD_ORDER", (KAdd, "orders"));
    ("UPDATE_ORDER", (KUpdate, "orders")); ("REMOVE_ORDER", (KRemove, "orders")) ].

(** The mutation functions of the data module; any other function returns
    at once. *)
Definition data_module (f : Fn) (this : Value) (args : list Value) (w : World)
    : Completion * World :=
  match data_mutations !! f with
  | Some (_, (k, key)) => as_mutation (apply_kind k key) args w
  | None => (Returned VUndefined, w)
  end.

(** The registrations of [setupStore], from function [n] on. *)
Fixpoint register_all (ms : list (string * (MutationKind * string))) (n : nat)
    (w : World) : World :=
  match ms with
  | [] => w
  | (name, _) :: ms' => register_all ms' (S n) (registerMutation name n w)
  end.

(** A store with two users and the mutations registered. *)
Definition two_users : list Value :=
  [VObj [("id", VNum 1); ("name", VStr "admin")];
   VObj [("id", VNum 2); ("name", VStr "ann"); ("isActive", VBool true)]].

Definition data_state : Props :=
  [("users", VArr two_users); ("processes", VArr []);
   ("products", VArr []); ("orders", VArr [])].

Definition data_world : World :=
  register_all data_mutations 0 (new_store data_state empty_world).

(** Three users, the first and the last with the same [id]. *)
Definition users_with_duplicate : list Value :=
  [VObj [("id", VNum 1); ("name", VStr "admin")];
   VObj [("id", VNum 2); ("name", VStr "ann")];
   VObj [("id", VNum 1); ("name", VStr "admin again")]].

Definition duplicate_state : Props :=
  [("users", VArr users_with_duplicate); ("orders", VArr [])].

(** A third user, and new data for the second. *)
Definition third_user : Value :=
  VObj [("id", VNum 3); ("name", VStr "bob")].

Definition second_user_update : Props :=
  [("id", VNum 2); ("name", VStr "anna"); ("role", VStr "operator")].
(** * Properties *)

(** ** Equations of the monad *)

Lemma step_eta {A : Type} (s : Step A) :
  MkStep (outcome s) (after s) (trace s) = s.
Proof. destruct s; reflexivity. Qed.

Section MonadLaws.
Context {A B : Type}.

Lemma bind_gets (f : World -> A) (k : A -> M B) (w : World) :
  bind (gets f) k w = k (f w) w.
Proof. unfold bind, gets. simpl. apply step_eta. Qed.

Lemma bind_modify (f : World -> World) (k : unit -> M B) (w : World) :
  bind (modify f) k w = k tt (f w).
Proof. unfold bind, modify. simpl. apply step_eta. Qed.

Lemma bind_returns (m : M A) (k : A -> M B) (w w' : World) (a : A)
    (t : list Invocation) :
  m w = MkStep (Ret a) w' t ->
  bind m k w = MkStep (outcome (k a w')) (after (k a w')) (t ++ trace (k a w')).
Proof. intros H. unfold bind. rewrite H. reflexivity. Qed.

Lemma bind_throws (m : M A) (k : A -> M B) (w w' : World) (e : Exn)
    (t : list Invocation) :
  m w = MkStep (Throw e) w' t -> bind m k w = MkStep (Throw e) w' t.
Proof. intros H. unfold bind. rewrite H. reflexivity. Qed.

Lemma try_catch_returns (m : M A) (h : Exn -> M A) (w w' : World) (a : A)
    (t : list Invocation) :
  m w = MkStep (Ret a) w' t -> try_catch m h w = MkStep (Ret a) w' t.
Proof. intros H. unfold try_catch. rewrite H. reflexivity. Qed.

Lemma try_catch_throws (m : M A) (h : Exn -> M A) (w w' : World) (e : Exn)
    (t : list Invocation) :
  m w = MkStep (Throw e) w' t ->
  try_catch m h w
  = MkStep (outcome (h e w')) (after (h e w')) (t ++ trace (h e w')).
Proof. intros H. unfold try_catch. rewrite H. reflexivity. Qed.

Lemma try_catch_out_of_fuel (m : M A) (h : Exn -> M A) (w w' : World)
    (t : list Invocation) :
  m w = MkStep OutOfFuel w' t -> try_catch m h w = MkStep OutOfFuel w' t.
Proof. intros H. unfold try_catch. rewrite H. reflexivity. Qed.

Lemma try_finally_returns (m : M A) (f : World -> World) (w w' : World) (a : A)
    (t : list Invocation) :
  m w = MkStep (Ret a) w' t -> try_finally m f w = MkStep (Ret a) (f w') t.
Proof. intros H. unfold try_finally. rewrite H. reflexivity. Qed.

Lemma try_finally_throws (m : M A) (f : World -> World) (w w' : World) (e : Exn)
    (t : list Invocation) :
  m w = MkStep (Throw e) w' t -> try_finally m f w = MkStep (Throw e) (f w') t.
Proof. intros H. unfold try_finally. rewrite H. reflexivity. Qed.

Lemma try_finally_out_of_fuel (m : M A) (f : World -> World) (w w' : World)
    (t : list Invocation) :
  m w = MkStep OutOfFuel w' t -> try_finally m f w = MkStep OutOfFuel w' t.
Proof. intros H. unfold try_finally. rewrite H. reflexivity. Qed.

Lemma await_returns (meanwhile : World -> World) (m : M A) (w w' : World)
    (a : A) (t : list Invocation) :
  m w = MkStep (Ret a) w' t ->
  await meanwhile m w = MkStep (Ret a) (meanwhile w') t.
Proof. intros H. unfold await. rewrite H. reflexivity. Qed.

Lemma await_throws (meanwhile : World -> World) (m : M A) (w w' : World)
    (e : Exn) (t : list Invocation) :
  m w = MkStep (Throw e) w' t ->
  await meanwhile m w = MkStep (Throw e) (meanwhile w') t.
Proof. intros H. unfold await. rewrite H. reflexivity. Qed.

End MonadLaws.

Ltac unfold_monad :=
  unfold bind, ret, gets, modify, throw, out_of_fuel, try_catch, try_finally,
         console_error in *.

(** ** Unknown and failing mutations *)

Section CommitErrors.
Variable call : Fn -> Value -> list Value -> World -> Completion * World.

Lemma invoke_step (site : Site) (f : Fn) (this : Value) (args : list Value)
    (w w' : World) (c : Completion) :
  call f this args w = (c, w') ->
  invoke call site f this args w
  = MkStep (match c with Returned v => Ret v | Threw e => Throw e end) w'
           [MkInvocation site f this args c].
Proof. intros H. unfold invoke. rewrite H. reflexivity. Qed.

Lemma commit_unknown_step (fuel : nat) (m : string) (p : Value) (w : World) :
  mutations (store w) !! m = None ->
  commit call fuel m p w = MkStep (Throw (unknown_mutation m)) w [].
Proof.
  intros Hnone. unfold commit. rewrite bind_gets, Hnone. reflexivity.
Qed.

(** C6: a commit of a name that is not registered throws the
    unknown-mutation error, and calls nothing and writes nothing: the world
    after it is the world before it, with the same state record and the
    same history. *)
Theorem commit_unknown_mutation (fuel : nat) (m : string) (p : Value) (w : World) :
  mutations (store w) !! m = None ->
  let s := commit call fuel m p w in
  outcome s = Throw (JsError ("Мутация '" +:+ m +:+ "' не найдена")) /\
  trace s = [] /\
  after s = w /\
  state (store (after s)) = state (store w) /\
  history_entries (after s) = history_entries w.
Proof.
  intros Hnone s. subst s. rewrite (commit_unknown_step fuel m p w Hnone).
  repeat split; reflexivity.
Qed.

(** A commit whose mutation function throws: the error is logged, the flag
    is lowered and the error is thrown on. *)
Lemma commit_threw (fuel : nat) (m : string) (f : Fn) (p : Value)
    (e : Exn) (w w' : World) :
  mutations (store w) !! m = Some f ->
  call f VUndefined [VObj (state (store w)); default_null p] (committing w)
    = (Threw e, w') ->
  commit call fuel m p w
  = MkStep (Throw e) (abandoned m e w')
      [MkInvocation (AtMutation m) f VUndefined
         [VObj (state (store w)); default_null p] (Threw e)].
Proof.
  intros Hreg Hcall.
  unfold commit. rewrite bind_gets, Hreg, bind_gets, bind_modify.
  fold (committing w).
  erewrite try_finally_throws.
  2:{ erewrite try_catch_throws.
      2:{ unfold commit_body. rewrite bind_gets.
          apply bind_throws.
          change (state (store (committing w))) with (state (store w)).
          apply (invoke_step _ _ _ _ _ _ _ Hcall). }
      reflexivity. }
  reflexivity.
Qed.

(** C5: when the registered mutation function throws [e], [commit] throws [e]
    to its caller; the only client function called is the mutation (no
    subscriber and no listener), and the history reference and every array
    are as the mutation function left them: nothing is appended. *)
Theorem commit_mutation_throws (fuel : nat) (m : string) (f : Fn) (p : Value)
    (e : Exn) (w w' : World) :
  mutations (store w) !! m = Some f ->
  call f VUndefined [VObj (state (store w)); default_null p] (committing w)
    = (Threw e, w') ->
  let s := commit call fuel m p w in
  outcome s = Throw e /\
  trace s = [MkInvocation (AtMutation m) f VUndefined
                          [VObj (state (store w)); default_null p] (Threw e)] /\
  subscriber_calls (trace s) = [] /\
  (forall event, listener_calls event (trace s) = []) /\
  after s = abandoned m e w' /\
  history (store (after s)) = history (store w') /\
  arrays (after s) = arrays w' /\
  history_entries (after s) = history_entries w'.
Proof.
  intros Hreg Hcall s. subst s.
  rewrite (commit_threw fuel m f p e w w' Hreg Hcall).
  repeat split; reflexivity.
Qed.

End CommitErrors.

(** ** One round of the bus *)

Section BusRound.
Variable call : Fn -> Value -> list Value -> World -> Completion * World.

Lemma bus_log_events (t : string) (w : World) :
  events (bus (bus_log t w)) = events (bus w).
Proof. unfold bus_log. destruct (debug (bus w)); reflexivity. Qed.

Lemma subscriber_calls_app (t1 t2 : list Invocation) :
  subscriber_calls (t1 ++ t2) = subscriber_calls t1 ++ subscriber_calls t2.
Proof. unfold subscriber_calls. apply omap_app. Qed.

(** One listener of the snapshot: it is called once, and whatever the call
    does the body of the loop completes normally. *)
Lemma emit_one_step (event : string) (data : Value) (l : Listener) (w : World) :
  exists w',
    emit_one call event data l w
    = MkStep (Ret tt) w'
        [MkInvocation (AtListener event (lid l)) (callback l) (receiver l)
                      [data] (fst (call (callback l) (receiver l) [data] w))].
Proof.
  unfold emit_one, invoke, delete_listener, receiver. unfold_monad.
  destruct (truthy (context l)); simpl;
    destruct (call (callback l) _ [data] w) as [[v|e] w1]; simpl;
    try (eexists; reflexivity);
    destruct (truthy (once_flag l)); simpl; try (eexists; reflexivity);
    destruct (events (bus w1) !! event); simpl; eexists; reflexivity.
Qed.

Lemma forEach_emit_one (event : string) (data : Value) (ls : list Listener) :
  forall w,
    let s := forEach (emit_one call event data) ls w in
    outcome s = Ret tt /\
    listener_calls event (trace s) = map lid ls /\
    map inv_fn (trace s) = map callback ls /\
    subscriber_calls (trace s) = [].
Proof.
  induction ls as [|l ls IH]; intros w; simpl.
  - repeat split; reflexivity.
  - destruct (emit_one_step event data l w) as [w' Hstep].
    unfold bind. rewrite Hstep. simpl.
    destruct (IH w') as (Hout & Hcalls & Hfns & Hsubs).
    rewrite Hout. simpl. rewrite String.eqb_refl.
    repeat split; [ now f_equal | now f_equal | exact Hsubs ].
Qed.

(** [emit] always returns, and calls every listener of its snapshot. *)
Lemma emit_round (event : string) (data : Value) (w : World) :
  let s := emit call event data w in
  outcome s = Ret tt /\
  listener_calls event (trace s) = map lid (listeners_of event w) /\
  map inv_fn (trace s) = map callback (listeners_of event w) /\
  subscriber_calls (trace s) = [].
Proof.
  unfold emit, listeners_of. unfold_monad. simpl.
  destruct (events (bus w) !! event) as [s0|] eqn:Hev; simpl.
  - rewrite bus_log_events, Hev. simpl.
    destruct (forEach_emit_one event (default_null data) (set_values s0)
                (bus_log ("📡 EventBus: событие '" +:+ event +:+ "'") w))
      as (Hout & Hcalls & Hfns & Hsubs).
    rewrite Hout. simpl. repeat split; assumption.
  - repeat split; reflexivity.
Qed.

Lemma forEach_emit_one_shapes (event : string) (data : Value) (ls : list Listener) :
  forall w,
    map call_shape (trace (forEach (emit_one call event data) ls w))
    = map (listener_call event data) ls.
Proof.
  induction ls as [|l ls IH]; intros w; simpl; [reflexivity|].
  destruct (emit_one_step event data l w) as [w' Hstep].
  rewrite (bind_returns _ _ _ _ _ _ Hstep). simpl.
  now rewrite IH.
Qed.

(** How [emit] calls each listener of its snapshot. *)
Lemma emit_shapes (event : string) (data : Value) (w : World) :
  map call_shape (trace (emit call event data w))
  = map (listener_call event (default_null data)) (listeners_of event w).
Proof.
  unfold emit, listeners_of. rewrite bind_gets.
  destruct (events (bus w) !! event) as [s0|] eqn:Hev; [|reflexivity].
  rewrite bind_modify, bind_gets, bus_log_events, Hev.
  apply forEach_emit_one_shapes.
Qed.

End BusRound.

(** ** What a round leaves alone *)

Section Frame.
Variable call : Fn -> Value -> list Value -> World -> Completion * World.
Context {X : Type} (proj : World -> X).
Hypothesis proj_log : forall l w, proj (log_line l w) = proj w.
Hypothesis proj_bus : forall b w, proj (set_bus b w) = proj w.
Hypothesis proj_call : observers_keep proj call.

Lemma proj_bus_log (t : string) (w : World) : proj (bus_log t w) = proj w.
Proof. unfold bus_log. destruct (debug (bus w)); [apply proj_log | reflexivity]. Qed.

Lemma emit_one_keeps (event : string) (data : Value) (l : Listener) (w : World) :
  proj (after (emit_one call event data l w)) = proj w.
Proof.
  pose proof (proj_call (callback l) (receiver l) [data] w) as Hk.
  unfold emit_one, invoke, delete_listener, receiver in *. unfold_monad.
  destruct (truthy (context l)); simpl;
    destruct (call (callback l) _ [data] w) as [[v|e] w1]; simpl in *;
    specialize (Hk ltac:(discriminate));
    rewrite ?proj_log; try exact Hk;
    destruct (truthy (once_flag l)); simpl; try exact Hk;
    destruct (events (bus w1) !! event); simpl;
    rewrite ?proj_log, ?proj_bus; exact Hk.
Qed.

Lemma forEach_emit_one_keeps (event : string) (data : Value) (ls : list Listener) :
  forall w, proj (after (forEach (emit_one call event data) ls w)) = proj w.
Proof.
  induction ls as [|l ls IH]; intros w; simpl; [reflexivity|].
  destruct (emit_one_step call event data l w) as [w' Hstep].
  pose proof (emit_one_keeps event data l w) as Hk.
  rewrite Hstep in Hk. simpl in Hk.
  rewrite (bind_returns _ _ _ _ _ _ Hstep). simpl.
  rewrite IH. exact Hk.
Qed.

Lemma emit_keeps (event : string) (data : Value) (w : World) :
  proj (after (emit call event data w)) = proj w.
Proof.
  unfold emit. rewrite bind_gets.
  destruct (events (bus w) !! event) as [s0|] eqn:Hev; [|reflexivity].
  rewrite bind_modify, bind_gets.
  rewrite forEach_emit_one_keeps. apply proj_bus_log.
Qed.

(** One subscriber: it is called once with the copy of the previous state,
    the live state and the descriptor, and the body of the loop completes
    normally whatever the call does. *)
Lemma notify_one_step (prevState : Props) (mutation : Value) (cb : Fn) (w : World) :
  exists w',
    notify_one call prevState mutation cb w
    = MkStep (Ret tt) w'
        [MkInvocation AtSubscriber cb VUndefined
           [VObj prevState; VObj (state (store w)); mutation]
           (fst (call cb VUndefined
                      [VObj prevState; VObj (state (store w)); mutation] w))]
    /\ proj w' = proj w.
Proof.
  pose proof (proj_call cb VUndefined
                [VObj prevState; VObj (state (store w)); mutation] w) as Hk.
  unfold notify_one, invoke. unfold_monad. simpl.
  destruct (call cb VUndefined _ w) as [[v|e] w1]; simpl in *;
    specialize (Hk ltac:(discriminate));
    eexists; (split; [reflexivity|]); rewrite ?proj_log; exact Hk.
Qed.

Lemma set_forEach_notify_keeps (prevState : Props) (mutation : Value) (fuel : nat) :
  forall index w,
    proj (after (set_forEach fuel (fun w => subscribers (store w))
                             (notify_one call prevState mutation) index w))
    = proj w.
Proof.
  induction fuel as [|fuel IH]; intros index w; simpl; [reflexivity|].
  destruct (subscribers (store w) !! index) as [[cb|]|]; simpl.
  - destruct (notify_one_step prevState mutation cb w) as (w' & Hstep & Hk).
    rewrite (bind_returns _ _ _ _ _ _ Hstep). simpl.
    rewrite IH. exact Hk.
  - apply IH.
  - reflexivity.
Qed.

Lemma notifySubscribers_keeps (fuel : nat) (prevState : Props) (mutation : Value)
    (w : World) :
  proj (after (notifySubscribers call fuel prevState mutation w)) = proj w.
Proof. apply set_forEach_notify_keeps. Qed.

End Frame.


(** ** One round of store subscribers, and a whole commit *)

Section StoreRound.
Variable call : Fn -> Value -> list Value -> World -> Completion * World.

Lemma keeps_subscribers_observers :
  keeps_subscribers call ->
  observers_keep (fun w => subscribers (store w)) call.
Proof. intros Hk f this args w _. apply Hk. Qed.

Lemma set_values_cons_none {A : Type} (s : list (option A)) :
  set_values (None :: s) = set_values s.
Proof. reflexivity. Qed.

Lemma set_values_cons_some {A : Type} (x : A) (s : list (option A)) :
  set_values (Some x :: s) = x :: set_values s.
Proof. reflexivity. Qed.

(** With a subscriber Set that no callback changes, the loop visits every
    entry from [index] on, whatever the callbacks return or throw. *)
Lemma notify_loop (prevState : Props) (mutation : Value) :
  observers_keep (fun w => subscribers (store w)) call ->
  forall fuel index w,
    (length (subscribers (store w)) - index < fuel)%nat ->
    let s := set_forEach fuel (fun w => subscribers (store w))
                         (notify_one call prevState mutation) index w in
    outcome s = Ret tt /\
    subscriber_calls (trace s)
    = set_values (drop index (subscribers (store w))) /\
    (forall event, listener_calls event (trace s) = []).
Proof.
  intros Hkeep fuel. induction fuel as [|fuel IH]; intros index w Hfuel; [lia|].
  simpl.
  destruct (subscribers (store w) !! index) as [[cb|]|] eqn:Hidx; simpl;
    try pose proof (lookup_lt_Some _ _ _ Hidx) as Hlt.
  - destruct (notify_one_step call (fun w => subscribers (store w))
                (fun _ _ => eq_refl) Hkeep prevState mutation cb w)
      as (w' & Hstep & Hsame).
    simpl in Hsame.
    rewrite (bind_returns _ _ _ _ _ _ Hstep). simpl.
    destruct (IH (S index) w') as (Hout & Hcalls & Hnone);
      [rewrite Hsame; lia|].
    rewrite Hcalls, Hsame.
    rewrite (drop_S _ _ _ Hidx). rewrite set_values_cons_some.
    repeat split; [exact Hout|]. intros event. apply Hnone.
  - destruct (IH (S index) w) as (Hout & Hcalls & Hnone); [lia|].
    rewrite (drop_S _ _ _ Hidx), set_values_cons_none.
    repeat split; assumption.
  - apply lookup_ge_None in Hidx. rewrite drop_ge by lia.
    repeat split; reflexivity.
Qed.

Lemma notifySubscribers_round (fuel : nat) (prevState : Props) (mutation : Value)
    (w : World) :
  observers_keep (fun w => subscribers (store w)) call ->
  (length (subscribers (store w)) < fuel)%nat ->
  let s := notifySubscribers call fuel prevState mutation w in
  outcome s = Ret tt /\
  subscriber_calls (trace s) = set_values (subscribers (store w)) /\
  (forall event, listener_calls event (trace s) = []).
Proof.
  intros Hkeep Hfuel. unfold notifySubscribers.
  destruct (notify_loop prevState mutation Hkeep fuel 0%nat w) as (H1 & H2 & H3);
    [lia|].
  rewrite drop_0 in H2. repeat split; assumption.
Qed.

Lemma addToHistory_frame (entry : HistoryEntry) (w : World) :
  bus (addToHistory entry w) = bus w /\
  state (store (addToHistory entry w)) = state (store w) /\
  mutations (store (addToHistory entry w)) = mutations (store w) /\
  subscribers (store (addToHistory entry w)) = subscribers (store w) /\
  maxHistorySize (store (addToHistory entry w)) = maxHistorySize (store w) /\
  clock (addToHistory entry w) = clock w.
Proof.
  unfold addToHistory. simpl.
  destruct (_ >? _); simpl; repeat split; reflexivity.
Qed.

(** [commit] of a registered mutation whose function returns: the entry is
    appended, then the subscribers are notified, then the event is
    published, and the flag is lowered. *)
Lemma commit_returned (fuel : nat) (m : string) (f : Fn) (p v : Value)
    (w w1 : World) :
  mutations (store w) !! m = Some f ->
  call f VUndefined [VObj (state (store w)); default_null p] (committing w)
    = (Returned v, w1) ->
  let prev := state (store w) in
  let w2 := addToHistory (commit_entry m (default_null p) prev w1) w1 in
  let sn := notifySubscribers call fuel prev
              (mutation_descriptor m (default_null p)) w2 in
  let se := emit call "store:mutation"
              (mutation_event m (default_null p) prev (state (store (after sn))))
              (after sn) in
  outcome sn = Ret tt ->
  commit call fuel m p w
  = MkStep (Ret tt)
      (set_store (set_isCommitting false (store (after se))) (after se))
      (MkInvocation (AtMutation m) f VUndefined
         [VObj (state (store w)); default_null p] (Returned v)
       :: trace sn ++ trace se).
Proof.
  intros Hreg Hcall prev w2 sn se Hsn.
  destruct (emit_round call "store:mutation"
              (mutation_event m (default_null p) prev (state (store (after sn))))
              (after sn)) as (Hse & _).
  fold se in Hse.
  unfold commit. rewrite bind_gets, Hreg, bind_gets, bind_modify.
  fold (committing w). fold prev.
  erewrite try_finally_returns; [reflexivity|].
  apply try_catch_returns.
  unfold commit_body. rewrite bind_gets.
  change (state (store (committing w))) with (state (store w)).
  rewrite (bind_returns _ _ _ _ _ _ (invoke_step call _ _ _ _ _ _ _ Hcall)).
  rewrite !bind_gets, bind_modify.
  fold (commit_entry m (default_null p) prev w1). fold w2.
  rewrite (bind_returns _ _ w2 (after sn) tt (trace sn)).
  2:{ rewrite <- Hsn. symmetry. apply step_eta. }
  rewrite bind_gets. fold (mutation_event m (default_null p) prev (state (store (after sn)))).
  fold se. rewrite Hse. reflexivity.
Qed.

(** When the fuel runs out in the loop over the subscribers, the commit is
    still running. *)
Lemma commit_out_of_fuel (fuel : nat) (m : string) (f : Fn) (p v : Value)
    (w w1 : World) :
  mutations (store w) !! m = Some f ->
  call f VUndefined [VObj (state (store w)); default_null p] (committing w)
    = (Returned v, w1) ->
  outcome (notifySubscribers call fuel (state (store w))
             (mutation_descriptor m (default_null p))
             (addToHistory
                (commit_entry m (default_null p) (state (store w)) w1) w1))
  = OutOfFuel ->
  outcome (commit call fuel m p w) = OutOfFuel.
Proof.
  intros Hreg Hcall Hsn.
  unfold commit. rewrite bind_gets, Hreg, bind_gets, bind_modify.
  fold (committing w).
  match goal with
  | |- outcome (try_finally (try_catch ?body ?h) ?fin ?w0) = _ =>
      assert (Hbody : outcome (body w0) = OutOfFuel);
      [| pose proof (step_eta (body w0)) as Heta; rewrite Hbody in Heta;
         symmetry in Heta;
         erewrite try_finally_out_of_fuel;
         [reflexivity | apply try_catch_out_of_fuel; exact Heta] ]
  end.
  unfold commit_body. rewrite bind_gets.
    change (state (store (committing w))) with (state (store w)).
    rewrite (bind_returns _ _ _ _ _ _ (invoke_step call _ _ _ _ _ _ _ Hcall)).
    rewrite !bind_gets, bind_modify.
    fold (commit_entry m (default_null p) (state (store w)) w1).
  cbn [outcome]. unfold bind at 1. rewrite Hsn. reflexivity.
Qed.

End StoreRound.

(** ** A round over a subscriber Set that the subscribers leave alone *)

Section SettledRound.
Variable call : Fn -> Value -> list Value -> World -> Completion * World.
Hypothesis settled : subscribers_settled call.

Lemma notify_one_settled (prevState : Props) (mutation : Value) (cb : Fn)
    (w : World) :
  exists w',
    notify_one call prevState mutation cb w
    = MkStep (Ret tt) w'
        [MkInvocation AtSubscriber cb VUndefined
           [VObj prevState; VObj (state (store w)); mutation]
           (fst (call cb VUndefined
                      [VObj prevState; VObj (state (store w)); mutation] w))]
    /\ subscribers (store w') = subscribers (store w).
Proof.
  pose proof (settled cb VUndefined
                [VObj prevState; VObj (state (store w)); mutation] w eq_refl)
    as Hk.
  unfold notify_one, invoke. unfold_monad. simpl.
  destruct (call cb VUndefined _ w) as [[v|e] w1]; simpl in *;
    eexists; (split; [reflexivity|]); exact Hk.
Qed.

Lemma notify_loop_settled (prevState : Props) (mutation : Value) :
  forall fuel index w,
    (length (subscribers (store w)) - index < fuel)%nat ->
    let s := set_forEach fuel (fun w => subscribers (store w))
                         (notify_one call prevState mutation) index w in
    outcome s = Ret tt /\
    subscriber_calls (trace s)
    = set_values (drop index (subscribers (store w))).
Proof.
  intros fuel. induction fuel as [|fuel IH]; intros index w Hfuel; [lia|].
  simpl.
  destruct (subscribers (store w) !! index) as [[cb|]|] eqn:Hidx; simpl;
    try pose proof (lookup_lt_Some _ _ _ Hidx) as Hlt.
  - destruct (notify_one_settled prevState mutation cb w)
      as (w' & Hstep & Hsame).
    rewrite (bind_returns _ _ _ _ _ _ Hstep). simpl.
    destruct (IH (S index) w') as (Hout & Hcalls); [rewrite Hsame; lia|].
    rewrite Hcalls, Hsame.
    rewrite (drop_S _ _ _ Hidx). rewrite set_values_cons_some.
    split; [exact Hout | reflexivity].
  - destruct (IH (S index) w) as (Hout & Hcalls); [lia|].
    rewrite (drop_S _ _ _ Hidx), set_values_cons_none.
    split; assumption.
  - apply lookup_ge_None in Hidx. rewrite drop_ge by lia.
    split; reflexivity.
Qed.

(** The round returns and calls every subscriber, whatever the subscribers
    return or throw. *)
Lemma notifySubscribers_settled (fuel : nat) (prevState : Props)
    (mutation : Value) (w : World) :
  (length (subscribers (store w)) < fuel)%nat ->
  let s := notifySubscribers call fuel prevState mutation w in
  outcome s = Ret tt /\
  subscriber_calls (trace s) = set_values (subscribers (store w)).
Proof.
  intros Hfuel. unfold notifySubscribers.
  destruct (notify_loop_settled prevState mutation fuel 0%nat w) as (H1 & H2);
    [lia|].
  rewrite drop_0 in H2. split; assumption.
Qed.

(** A commit whose mutation function returned: it returns, and every
    subscriber of the Set the mutation function left was called. *)
Lemma commit_round_settled (fuel : nat) (m : string) (f : Fn) (p v : Value)
    (w w1 : World) :
  mutations (store w) !! m = Some f ->
  call f VUndefined [VObj (state (store w)); default_null p] (committing w)
    = (Returned v, w1) ->
  (length (subscribers (store w1)) < fuel)%nat ->
  outcome (commit call fuel m p w) = Ret tt /\
  subscriber_calls (trace (commit call fuel m p w))
  = set_values (subscribers (store w1)).
Proof.
  intros Hreg Hcall Hfuel.
  set (w2 := addToHistory
               (commit_entry m (default_null p) (state (store w)) w1) w1).
  assert (Hw2 : subscribers (store w2) = subscribers (store w1)).
  { unfold w2.
    now destruct (addToHistory_frame
                (commit_entry m (default_null p) (state (store w)) w1) w1)
      as (_ & _ & _ & H & _). }
  destruct (notifySubscribers_settled fuel (state (store w))
              (mutation_descriptor m (default_null p)) w2)
    as (Hn1 & Hn2); [rewrite Hw2; exact Hfuel|].
  rewrite (commit_returned call fuel m f p v w w1 Hreg Hcall Hn1).
  split; [reflexivity|]. cbn [trace].
  change (subscriber_calls (?i :: ?t)) with (subscriber_calls t).
  fold w2.
  rewrite subscriber_calls_app, Hn2, Hw2.
  match goal with
  | |- context [emit call ?e ?d ?w0] =>
      destruct (emit_round call e d w0) as (_ & _ & _ & He)
  end.
  rewrite He. apply app_nil_r.
Qed.

End SettledRound.


(** ** Registration order *)

Section Registration.

Lemma set_has_fresh (l : Listener) (s : list (option Listener)) :
  (forall l', In (Some l') s -> lid l' <> lid l) ->
  set_has same_listener l s = false.
Proof.
  intros Hfresh. unfold set_has. induction s as [|[l'|] s IH]; simpl.
  - reflexivity.
  - rewrite IH by (intros; apply Hfresh; now right).
    unfold same_listener.
    destruct (Nat.eqb_spec (lid l) (lid l')) as [Heq|]; [|reflexivity].
    exfalso. apply (Hfresh l'); [now left | now symmetry].
  - apply IH. intros; apply Hfresh; now right.
Qed.

Lemma set_values_app {A : Type} (s1 s2 : list (option A)) :
  set_values (s1 ++ s2) = set_values s1 ++ set_values s2.
Proof. unfold set_values. apply omap_app. Qed.

(** [on] puts the new listener after the ones already registered. *)
Lemma on_registers_last (event : string) (cb : Fn) (o : Options) (w : World) :
  bus_wf w ->
  listeners_of event (snd (on event cb o w))
  = listeners_of event w ++ [make_listener (next_lid (bus w)) cb o].
Proof.
  intros Hwf. unfold on, listeners_of. simpl. rewrite bus_log_events. simpl.
  destruct (events (bus w) !! event) as [s|] eqn:Hev.
  - rewrite lookup_alter_eq, Hev. simpl. unfold set_add.
    rewrite set_has_fresh.
    + now rewrite set_values_app.
    + intros l' Hin. specialize (Hwf event s l' Hev Hin). simpl. lia.
  - rewrite lookup_alter_eq, lookup_insert_eq. reflexivity.
Qed.

Lemma bus_wf_empty_world : bus_wf empty_world.
Proof. intros event s l Hev. vm_compute in Hev. discriminate. Qed.

Lemma in_set_add (l x : Listener) (s : list (option Listener)) :
  In (Some x) (set_add same_listener l s) -> In (Some x) s \/ x = l.
Proof.
  unfold set_add. destruct (set_has same_listener l s); [now left|].
  rewrite in_app_iff. simpl. intros [H|[H|[]]]; [now left|right; congruence].
Qed.

Lemma bus_log_bus (t : string) (w : World) : bus (bus_log t w) = bus w.
Proof. unfold bus_log. destruct (debug (bus w)); reflexivity. Qed.

Lemma on_bus (event : string) (cb : Fn) (o : Options) (w : World) :
  bus (snd (on event cb o w))
  = MkEventBus
      (alter (set_add same_listener (make_listener (next_lid (bus w)) cb o))
             event
             match events (bus w) !! event with
             | Some _ => events (bus w)
             | None => <[event := []]> (events (bus w))
             end)
      (debug (bus w)) (S (next_lid (bus w))).
Proof. unfold on. simpl. apply bus_log_bus. Qed.

Lemma bus_wf_on (event : string) (cb : Fn) (o : Options) (w : World) :
  bus_wf w -> bus_wf (snd (on event cb o w)).
Proof.
  intros Hwf ev s l. rewrite on_bus. simpl. intros Hlook Hin.
  destruct (decide (event = ev)) as [->|Hne].
  - rewrite lookup_alter_eq in Hlook.
    destruct (events (bus w) !! ev) as [s0|] eqn:Hev.
    + rewrite Hev in Hlook. simpl in Hlook. injection Hlook as <-.
      apply in_set_add in Hin as [Hin| ->].
      * specialize (Hwf ev s0 l Hev Hin). lia.
      * simpl. lia.
    + rewrite lookup_insert_eq in Hlook. simpl in Hlook. injection Hlook as <-.
      apply in_set_add in Hin as [[]| ->]. simpl. lia.
  - rewrite lookup_alter_ne in Hlook by assumption.
    assert (Hold : events (bus w) !! ev = Some s).
    { destruct (events (bus w) !! event); [assumption|].
      now rewrite lookup_insert_ne in Hlook. }
    specialize (Hwf ev s l Hold Hin). lia.
Qed.

End Registration.

(** ** The claims on the bus and on notification rounds *)

Section Rounds.
Variable call : Fn -> Value -> list Value -> World -> Completion * World.

(** A commit whose mutation function returned, with a subscriber Set that
    no callback changes: it returns, and every subscriber was called. *)
Lemma commit_round (fuel : nat) (m : string) (f : Fn) (p v : Value)
    (w w1 : World) :
  keeps_subscribers call ->
  mutations (store w) !! m = Some f ->
  call f VUndefined [VObj (state (store w)); default_null p] (committing w)
    = (Returned v, w1) ->
  (length (subscribers (store w)) < fuel)%nat ->
  outcome (commit call fuel m p w) = Ret tt /\
  subscriber_calls (trace (commit call fuel m p w))
  = set_values (subscribers (store w)).
Proof.
  intros Hkeep Hreg Hcall Hfuel.
  pose proof (keeps_subscribers_observers call Hkeep) as Hobs.
  assert (Hw1 : subscribers (store w1) = subscribers (store w)).
  { pose proof (Hkeep f VUndefined
                  [VObj (state (store w)); default_null p] (committing w)) as H.
    rewrite Hcall in H. exact H. }
  set (w2 := addToHistory
               (commit_entry m (default_null p) (state (store w)) w1) w1).
  assert (Hw2 : subscribers (store w2) = subscribers (store w)).
  { unfold w2.
    destruct (addToHistory_frame
                (commit_entry m (default_null p) (state (store w)) w1) w1)
      as (_ & _ & _ & H & _).
    now rewrite H. }
  destruct (notifySubscribers_round call fuel (state (store w))
              (mutation_descriptor m (default_null p)) w2 Hobs)
    as (Hn1 & Hn2 & _); [rewrite Hw2; exact Hfuel|].
  rewrite (commit_returned call fuel m f p v w w1 Hreg Hcall Hn1).
  split; [reflexivity|]. cbn [trace].
  change (subscriber_calls (?i :: ?t)) with (subscriber_calls t).
  fold w2.
  rewrite subscriber_calls_app, Hn2, Hw2.
  match goal with
  | |- context [emit call ?e ?d ?w0] =>
      destruct (emit_round call e d w0) as (_ & _ & _ & He)
  end.
  rewrite He. apply app_nil_r.
Qed.

(** C3: a listener or subscriber that throws stops nothing.  Every [emit],
    of any event in any world and whatever the callbacks do, calls every
    listener of its snapshot and returns normally.  A round of
    [notifySubscribers] calls every subscriber and returns normally,
    whatever the subscribers return or throw, and so does a [commit] whose
    mutation function returned; this is for subscribers that leave the
    subscriber Set alone, over which [notifySubscribers] iterates live. *)
Theorem failure_isolation (event : string) (data : Value) (fuel : nat)
    (prevState : Props) (mutation : Value) (m : string) (f : Fn)
    (p v : Value) (w w1 : World) :
  let se := emit call event data w in
  let sn := notifySubscribers call fuel prevState mutation w in
  let sc := commit call fuel m p w in
  (outcome se = Ret tt /\
   listener_calls event (trace se) = map lid (listeners_of event w)) /\
  (subscribers_settled call ->
   (length (subscribers (store w)) < fuel)%nat ->
   outcome sn = Ret tt /\
   subscriber_calls (trace sn) = set_values (subscribers (store w))) /\
  (subscribers_settled call ->
   mutations (store w) !! m = Some f ->
   call f VUndefined [VObj (state (store w)); default_null p] (committing w)
     = (Returned v, w1) ->
   (length (subscribers (store w1)) < fuel)%nat ->
   outcome sc = Ret tt /\
   subscriber_calls (trace sc) = set_values (subscribers (store w1))).
Proof.
  intros se sn sc. split; [|split].
  - destruct (emit_round call event data w) as (H1 & H2 & _). now split.
  - intros Hset Hfuel.
    exact (notifySubscribers_settled call Hset fuel prevState mutation w Hfuel).
  - intros Hset Hreg Hcall Hfuel.
    exact (commit_round_settled call Hset fuel m f p v w w1 Hreg Hcall Hfuel).
Qed.

(** C4: every [emit] calls exactly the listeners registered for the event
    when it starts, in the order of the Set, which is the order of
    registration ([on] appends).  A listener that is registered after the
    round but was not before it, so one added during the round, is not
    called in that round and is called by the next [emit] of the event. *)
Theorem publish_snapshot (event : string) (data data' : Value) (w : World) :
  let s := emit call event data w in
  (listener_calls event (trace s) = map lid (listeners_of event w) /\
   map inv_fn (trace s) = map callback (listeners_of event w)) /\
  (bus_wf w ->
   forall cb o,
     listeners_of event (snd (on event cb o w))
     = listeners_of event w ++ [make_listener (next_lid (bus w)) cb o]) /\
  (forall l,
     In l (listeners_of event (after s)) ->
     ~ In (lid l) (map lid (listeners_of event w)) ->
     ~ In (lid l) (listener_calls event (trace s)) /\
     In (lid l) (listener_calls event (trace (emit call event data' (after s))))).
Proof.
  intros s.
  destruct (emit_round call event data w) as (_ & Hcalls & Hfns & _).
  fold s in Hcalls, Hfns.
  split; [split; assumption|]. split.
  - intros Hwf cb o. now apply on_registers_last.
  - intros l Hafter Hbefore.
    destruct (emit_round call event data' (after s)) as (_ & Hnext & _).
    split.
    + rewrite Hcalls. exact Hbefore.
    + rewrite Hnext. now apply in_map.
Qed.

(** [dispatch] of a registered action that settles with a result: the
    event is published in the world the rest of the program left. *)
Lemma dispatch_returned (meanwhile : World -> World) (a : string) (f : Fn)
    (p result : Value) (w w1 : World) :
  actions (store w) !! a = Some f ->
  call f VUndefined [action_context (state (store w)); default_null p] w
    = (Returned result, w1) ->
  let se := emit call "store:action"
                 (action_event a (default_null p) result) (meanwhile w1) in
  dispatch call meanwhile a p w
  = MkStep (Ret result) (after se)
      (MkInvocation (AtAction a) f VUndefined
         [action_context (state (store w)); default_null p] (Returned result)
       :: trace se).
Proof.
  intros Hreg Hcall se. subst se.
  destruct (emit_round call "store:action"
              (action_event a (default_null p) result) (meanwhile w1))
    as (Hout & _).
  unfold dispatch. rewrite bind_gets, Hreg.
  apply try_catch_returns.
  rewrite bind_gets.
  rewrite (bind_returns _ _ _ _ _ _
             (await_returns meanwhile _ _ _ _ _
                (invoke_step call _ _ _ _ _ _ _ Hcall))).
  fold (action_event a (default_null p) result).
  unfold bind. rewrite Hout. simpl. rewrite app_nil_r. reflexivity.
Qed.

(** [dispatch] of a registered action that throws, or whose promise is
    rejected: the error is logged and thrown on. *)
Lemma dispatch_threw (meanwhile : World -> World) (a : string) (f : Fn)
    (p : Value) (e : Exn) (w w1 : World) :
  actions (store w) !! a = Some f ->
  call f VUndefined [action_context (state (store w)); default_null p] w
    = (Threw e, w1) ->
  dispatch call meanwhile a p w
  = MkStep (Throw e)
      (log_line (MkLogLine LogError ("❌ Ошибка в действии '" +:+ a +:+ "':")
                           (Some e)) (meanwhile w1))
      [MkInvocation (AtAction a) f VUndefined
         [action_context (state (store w)); default_null p] (Threw e)].
Proof.
  intros Hreg Hcall.
  unfold dispatch. rewrite bind_gets, Hreg.
  erewrite try_catch_throws.
  2:{ rewrite bind_gets.
      apply bind_throws.
      apply (await_throws meanwhile).
      apply (invoke_step call _ _ _ _ _ _ _ Hcall). }
  reflexivity.
Qed.

(** C7: [dispatch] of a registered action calls the action function with
    the context and the payload.  When the action settles with a result,
    [dispatch] then calls every listener that is registered on
    [store:action] at that time, in registration order, each with
    [{name, payload, result}], and returns the result.  When the action
    throws or its promise is rejected, [dispatch] throws the same error to
    its caller and calls no listener. *)
Theorem dispatch_publishes_or_rethrows (meanwhile : World -> World)
    (a : string) (f : Fn) (p : Value) (w : World) :
  actions (store w) !! a = Some f ->
  let args := [action_context (state (store w)); default_null p] in
  let s := dispatch call meanwhile a p w in
  match call f VUndefined args w with
  | (Returned result, w1) =>
      outcome s = Ret result /\
      map call_shape (trace s)
      = (AtAction a, f, VUndefined, args)
        :: map (listener_call "store:action"
                  (action_event a (default_null p) result))
               (listeners_of "store:action" (meanwhile w1))
  | (Threw e, w1) =>
      outcome s = Throw e /\
      map call_shape (trace s) = [(AtAction a, f, VUndefined, args)]
  end.
Proof.
  intros Hreg args s. subst s.
  destruct (call f VUndefined args w) as [[result|e] w1] eqn:Hcall.
  - rewrite (dispatch_returned meanwhile a f p result w w1 Hreg Hcall).
    split; [reflexivity|]. cbn [trace map]. f_equal.
    rewrite emit_shapes.
    change (default_null (action_event a (default_null p) result))
      with (action_event a (default_null p) result).
    reflexivity.
  - rewrite (dispatch_threw meanwhile a f p e w w1 Hreg Hcall).
    split; reflexivity.
Qed.

End Rounds.

(** ** The statements above at concrete inputs *)

Lemma commit_mutation_throws_witness :
  let w := observed_mutation_world in
  let s := commit first_throws 5 "M" VUndefined w in
  mutations (store w) !! "M" = Some 1%nat /\
  set_values (subscribers (store w)) = [2%nat] /\
  outcome s = Throw (JsError "boom") /\
  trace s = [MkInvocation (AtMutation "M") 1%nat VUndefined
                          [VObj []; VNull] (Threw (JsError "boom"))] /\
  subscriber_calls (trace s) = [] /\
  (forall event, listener_calls event (trace s) = []) /\
  after s = abandoned "M" (JsError "boom") (committing w) /\
  history (store (after s)) = history (store (committing w)) /\
  arrays (after s) = arrays (committing w) /\
  history_entries (after s) = history_entries (committing w).
Proof.
  intros w s. split; [reflexivity|]. split; [reflexivity|].
  apply (commit_mutation_throws first_throws 5 "M" 1%nat VUndefined
           (JsError "boom") w (committing w)); reflexivity.
Defined.

Lemma commit_unknown_mutation_witness :
  let s := commit first_throws 5 "unknownName" (VObj []) observed_mutation_world in
  mutations (store observed_mutation_world) !! "unknownName" = None /\
  outcome s = Throw (JsError "Мутация 'unknownName' не найдена") /\
  trace s = [] /\
  after s = observed_mutation_world /\
  state (store (after s)) = state (store observed_mutation_world) /\
  history_entries (after s) = history_entries observed_mutation_world.
Proof.
  intros s. split; [reflexivity|].
  apply (commit_unknown_mutation first_throws 5 "unknownName" (VObj [])
           observed_mutation_world).
  reflexivity.
Defined.

Lemma first_throws_keeps_subscribers : keeps_subscribers first_throws.
Proof.
  intros f this args w. unfold first_throws.
  destruct (Nat.eqb f 1); reflexivity.
Defined.

Lemma first_throws_subscribers_settled : subscribers_settled first_throws.
Proof.
  intros f this args w _. unfold first_throws.
  destruct (Nat.eqb f 1); reflexivity.
Defined.

Lemma failure_isolation_witness :
  let w := isolation_world in
  let se := emit first_throws "x" VNull w in
  let sn := notifySubscribers first_throws 5 [("n", VNum 1)]
              (mutation_descriptor "M" VNull) w in
  let sc := commit first_throws 5 "M" VNull w in
  (outcome se = Ret tt /\
   listener_calls "x" (trace se) = map lid (listeners_of "x" w)) /\
  (outcome sn = Ret tt /\
   subscriber_calls (trace sn) = set_values (subscribers (store w))) /\
  (outcome sc = Ret tt /\
   subscriber_calls (trace sc)
   = set_values (subscribers (store (committing w)))).
Proof.
  intros w.
  destruct (failure_isolation first_throws "x" VNull 5 [("n", VNum 1)]
              (mutation_descriptor "M" VNull) "M" 3%nat VNull VUndefined
              w (committing w)) as (H1 & H2 & H3).
  split; [exact H1|]. split.
  - apply H2.
    + exact first_throws_subscribers_settled.
    + vm_compute. lia.
  - apply H3.
    + exact first_throws_subscribers_settled.
    + reflexivity.
    + reflexivity.
    + vm_compute. lia.
Defined.

(** The scenario of the specification: of two listeners on [x] the first
    throws; the second is still called and [emit] returns. *)
Example first_listener_throws :
  let s := emit first_throws "x" VNull isolation_world in
  outcome s = Ret tt /\
  map inv_fn (trace s) = [1%nat; 2%nat] /\
  map inv_result (trace s) = [Threw (JsError "boom"); Returned VUndefined].
Proof. vm_compute. repeat split; reflexivity. Qed.

Example first_subscriber_throws :
  let s := commit first_throws 5 "M" VNull isolation_world in
  outcome s = Ret tt /\
  map inv_fn (trace s) = [3%nat; 1%nat; 2%nat] /\
  map inv_result (trace s)
  = [Returned VUndefined; Threw (JsError "boom"); Returned VUndefined].
Proof. vm_compute. repeat split; reflexivity. Qed.

Lemma bus_wf_one_listener_world : bus_wf one_listener_world.
Proof. apply bus_wf_on, bus_wf_empty_world. Defined.

Lemma publish_snapshot_witness :
  let w := one_listener_world in
  let l := make_listener 1 2%nat no_options in
  let s := emit adds_listener "x" VNull w in
  (listener_calls "x" (trace s) = map lid (listeners_of "x" w) /\
   map inv_fn (trace s) = map callback (listeners_of "x" w)) /\
  (forall cb o,
     listeners_of "x" (snd (on "x" cb o w))
     = listeners_of "x" w ++ [make_listener (next_lid (bus w)) cb o]) /\
  ~ In (lid l) (listener_calls "x" (trace s)) /\
  In (lid l) (listener_calls "x" (trace (emit adds_listener "x" VNull (after s)))).
Proof.
  intros w l.
  destruct (publish_snapshot adds_listener "x" VNull VNull w)
    as (H1 & H2 & H3).
  split; [exact H1|]. split.
  - apply H2. exact bus_wf_one_listener_world.
  - apply (H3 l).
    + vm_compute. right. left. reflexivity.
    + vm_compute. intros [H|[]]. discriminate H.
Defined.

(** A listener added during a round, on the concrete traces. *)
Example listener_added_during_publish :
  let s := emit adds_listener "x" VNull one_listener_world in
  listener_calls "x" (trace s) = [0%nat] /\
  map lid (listeners_of "x" (after s)) = [0%nat; 1%nat] /\
  listener_calls "x" (trace (emit adds_listener "x" VNull (after s)))
  = [0%nat; 1%nat].
Proof. vm_compute. repeat split; reflexivity. Qed.

Lemma dispatch_publishes_or_rethrows_witness :
  actions (store action_world) !! "run" = Some 1%nat /\
  (let s := dispatch returns_seven registers_late "run" VUndefined
                     action_world in
   outcome s = Ret (VNum 7) /\
   map call_shape (trace s)
   = (AtAction "run", 1%nat, VUndefined, [action_context []; VNull])
     :: map (listener_call "store:action"
               (action_event "run" VNull (VNum 7)))
            (listeners_of "store:action" (registers_late action_world))) /\
  (let s := dispatch first_throws registers_late "run" VUndefined
                     action_world in
   outcome s = Throw (JsError "boom") /\
   map call_shape (trace s)
   = [(AtAction "run", 1%nat, VUndefined, [action_context []; VNull])]).
Proof.
  split; [reflexivity|]. split.
  - exact (dispatch_publishes_or_rethrows returns_seven registers_late
             "run" 1%nat VUndefined action_world eq_refl).
  - exact (dispatch_publishes_or_rethrows first_throws registers_late
             "run" 1%nat VUndefined action_world eq_refl).
Defined.

(** The listeners on [store:action] receive the event after the action
    returned, the one registered while the action was awaited as well, and
    receive nothing when the action threw. *)
Example action_event_published :
  map (fun i => (inv_fn i, inv_args i))
      (trace (dispatch returns_seven registers_late "run" VUndefined
                       action_world))
  = [(1%nat, [action_context []; VNull]);
     (2%nat, [action_event "run" VNull (VNum 7)]);
     (3%nat, [action_event "run" VNull (VNum 7)])] /\
  map inv_site (trace (dispatch first_throws registers_late "run" VUndefined
                                action_world))
  = [AtAction "run"].
Proof. vm_compute. split; reflexivity. Qed.

(** ** The subscriber Set *)

Section Subscribers.
Variable call : Fn -> Value -> list Value -> World -> Completion * World.

Lemma set_has_in (c : Fn) (s : list (option Fn)) :
  set_has Nat.eqb c s = true <-> In c (set_values s).
Proof.
  unfold set_has. induction s as [|[y|] s IH]; simpl.
  - split; [discriminate | tauto].
  - rewrite orb_true_iff, IH, Nat.eqb_eq. unfold set_values. simpl.
    split; intros [H|H]; auto.
  - exact IH.
Qed.

Lemma set_delete_removes (c : Fn) (s : list (option Fn)) :
  List.NoDup (set_values s) -> ~ In c (set_values (set_delete Nat.eqb c s)).
Proof.
  induction s as [|[y|] s IH]; simpl; intros Hnd.
  - tauto.
  - change (set_values (Some y :: s)) with (y :: set_values s) in Hnd.
    apply NoDup_cons_iff in Hnd as [Hy Hnd].
    destruct (Nat.eqb_spec c y) as [->|Hne].
    + exact Hy.
    + change (~ In c (y :: set_values (set_delete Nat.eqb c s))).
      intros [H|H]; [congruence | now apply IH].
  - now apply IH.
Qed.

Lemma set_store_same (w : World) (s : Store) : s = store w -> set_store s w = w.
Proof. intros ->. destruct w; reflexivity. Qed.

Lemma set_subscribers_same (s : Store) (l : list (option Fn)) :
  l = subscribers s -> set_subscribers l s = s.
Proof. intros ->. destruct s; reflexivity. Qed.

(** [add] and [delete] keep a Set free of duplicates. *)
Lemma set_add_nodup (c : Fn) (s : list (option Fn)) :
  List.NoDup (set_values s) -> List.NoDup (set_values (set_add Nat.eqb c s)).
Proof.
  intros Hnd. unfold set_add.
  destruct (set_has Nat.eqb c s) eqn:Hhas; [exact Hnd|].
  unfold set_values. rewrite omap_app. simpl.
  apply List.NoDup_app.
  - exact Hnd.
  - constructor; [intros [] | constructor].
  - intros x Hx [<-|[]].
    apply set_has_in in Hx. congruence.
Qed.

Lemma set_delete_in (c x : Fn) (s : list (option Fn)) :
  In x (set_values (set_delete Nat.eqb c s)) -> In x (set_values s).
Proof.
  induction s as [|[y|] s IH]; simpl; [tauto| |exact IH].
  destruct (Nat.eqb c y).
  - intros H. right. exact H.
  - intros [H|H]; [now left | right; now apply IH].
Qed.

Lemma set_delete_nodup (c : Fn) (s : list (option Fn)) :
  List.NoDup (set_values s) -> List.NoDup (set_values (set_delete Nat.eqb c s)).
Proof.
  induction s as [|[y|] s IH]; simpl; intros Hnd.
  - exact Hnd.
  - change (set_values (Some y :: s)) with (y :: set_values s) in Hnd.
    apply NoDup_cons_iff in Hnd as [Hy Hnd].
    destruct (Nat.eqb c y).
    + exact Hnd.
    + change (List.NoDup (y :: set_values (set_delete Nat.eqb c s))).
      constructor; [|now apply IH].
      intros Hin. apply Hy. now apply set_delete_in in Hin.
  - now apply IH.
Qed.

(** C9: [subscribe] of a callback that is in the subscriber Set changes
    nothing, and one call of the closure [subscribe] returned leaves the
    Set without the callback, in every store (a Set holds no entry twice).
    A commit made after the second [subscribe] calls the callback exactly
    once; this is for a mutation function that returns and for a mutation
    function and subscribers that leave the Set alone during the commit. *)
Theorem subscribe_twice (c : Fn) (fuel : nat) (m : string) (f : Fn) (p v : Value)
    (w w1 : World) :
  List.NoDup (set_values (subscribers (store w))) ->
  In c (set_values (subscribers (store w))) ->
  let u := fst (subscribe c w) in
  let w' := snd (subscribe c w) in
  w' = w /\
  ~ In c (set_values (subscribers (store (unsubscribe u w')))) /\
  (subscribers_settled call ->
   mutations (store w') !! m = Some f ->
   call f VUndefined [VObj (state (store w')); default_null p] (committing w')
     = (Returned v, w1) ->
   subscribers (store w1) = subscribers (store w') ->
   (length (subscribers (store w')) < fuel)%nat ->
   outcome (commit call fuel m p w') = Ret tt /\
   count_occ Nat.eq_dec (subscriber_calls (trace (commit call fuel m p w'))) c
   = 1%nat).
Proof.
  intros Hnd Hin u w'.
  assert (Hsame : w' = w).
  { unfold w', subscribe. simpl. unfold set_add.
    rewrite (proj2 (set_has_in c _) Hin).
    apply set_store_same, set_subscribers_same. reflexivity. }
  split; [exact Hsame|]. rewrite Hsame. split.
  - unfold u. simpl. now apply set_delete_removes.
  - intros Hset Hreg Hcall Hw1 Hfuel.
    destruct (commit_round_settled call Hset fuel m f p v w w1 Hreg Hcall)
      as (Hret & Hcalls); [rewrite Hw1; exact Hfuel|].
    split; [exact Hret|].
    rewrite Hcalls, Hw1. now apply NoDup_count_occ'.
Qed.

End Subscribers.

Lemma subscribe_twice_witness :
  let w := isolation_world in
  let u := fst (subscribe 2%nat w) in
  let w' := snd (subscribe 2%nat w) in
  In 2%nat (set_values (subscribers (store w))) /\
  w' = w /\
  ~ In 2%nat (set_values (subscribers (store (unsubscribe u w')))) /\
  outcome (commit first_throws 5 "M" VNull w') = Ret tt /\
  count_occ Nat.eq_dec
    (subscriber_calls (trace (commit first_throws 5 "M" VNull w'))) 2%nat
  = 1%nat.
Proof.
  intros w u w'.
  assert (Hin : In 2%nat (set_values (subscribers (store w))))
    by (vm_compute; right; left; reflexivity).
  split; [exact Hin|].
  destruct (subscribe_twice first_throws 2%nat 5 "M" 3%nat VNull VUndefined
              w (committing w)) as (H1 & H2 & H3).
  - vm_compute. repeat constructor; simpl; intuition discriminate.
  - exact Hin.
  - split; [exact H1|]. split; [exact H2|].
    apply H3.
    + exact first_throws_subscribers_settled.
    + reflexivity.
    + reflexivity.
    + reflexivity.
    + vm_compute. lia.
Defined.

(** ** The array [getHistory] returns *)

Section HistoryCopy.

Lemma alloc_fresh (a : list HistoryEntry) (w : World) :
  arrays w !! fst (alloc a w) = None.
Proof.
  unfold alloc. simpl. apply not_elem_of_dom. apply is_fresh.
Qed.

Lemma deref_alloc (a : list HistoryEntry) (w : World) :
  deref (fst (alloc a w)) (snd (alloc a w)) = a.
Proof. unfold deref, alloc. simpl. now rewrite lookup_insert_eq. Qed.

(** The store's own methods keep the history reference live. *)
Lemma history_live_new_store (initialState : Props) (w : World) :
  history_live (new_store initialState w).
Proof.
  unfold history_live, new_store, alloc. simpl.
  rewrite lookup_insert_eq. now eexists.
Qed.

Lemma history_live_addToHistory (e : HistoryEntry) (w : World) :
  history_live (addToHistory e w).
Proof.
  unfold history_live, addToHistory, array_update, alloc. cbn.
  destruct (_ >? _); cbn; rewrite lookup_insert_eq; now eexists.
Qed.

Lemma history_live_setMaxHistorySize (size : Z) (w : World) :
  history_live w -> history_live (setMaxHistorySize size w).
Proof.
  unfold history_live, setMaxHistorySize, alloc. cbn. intros Hlive.
  destruct (_ >? _); cbn; [rewrite lookup_insert_eq; now eexists | exact Hlive].
Qed.

Lemma history_live_clearHistory (w : World) : history_live (clearHistory w).
Proof.
  unfold history_live, clearHistory, alloc. simpl.
  rewrite lookup_insert_eq. now eexists.
Qed.

Lemma history_live_getHistory (w : World) :
  history_live w -> history_live (snd (getHistory w)).
Proof.
  unfold history_live, getHistory, alloc. simpl. intros [a Ha].
  destruct (decide (fresh (dom (arrays w)) = history (store w))) as [Heq|Hne].
  - rewrite Heq, lookup_insert_eq. now eexists.
  - rewrite lookup_insert_ne by exact Hne. now exists a.
Qed.

(** C10: [getHistory] returns a new array with the entries of the history.
    Whatever is done to that array in place (here any function [f] of its
    contents: a push, a pop, a reversal), the history of the store holds the
    same entries, and the next [getHistory] returns them again. *)
Theorem getHistory_fresh_copy (f : list HistoryEntry -> list HistoryEntry)
    (w : World) :
  history_live w ->
  let r := fst (getHistory w) in
  let w1 := snd (getHistory w) in
  let w2 := array_update r f w1 in
  r <> history (store w) /\
  deref r w1 = history_entries w /\
  deref r w2 = f (history_entries w) /\
  store w2 = store w /\
  history_entries w2 = history_entries w /\
  deref (fst (getHistory w2)) (snd (getHistory w2)) = history_entries w.
Proof.
  intros Hlive r w1 w2. unfold history_live in Hlive.
  assert (Hne : r <> history (store w)).
  { intros Heq.
    assert (Hfresh : arrays w !! r = None)
      by exact (alloc_fresh (history_entries w) w).
    rewrite Heq in Hfresh. rewrite Hfresh in Hlive. now destruct Hlive. }
  assert (Hr : deref r w1 = history_entries w)
    by apply (deref_alloc (history_entries w) w).
  assert (Hkept : history_entries w2 = history_entries w).
  { unfold history_entries, w2, array_update, deref. simpl.
    rewrite !lookup_insert_ne by exact Hne. reflexivity. }
  repeat split.
  - exact Hne.
  - exact Hr.
  - unfold w2, array_update, deref at 1. simpl.
    rewrite lookup_insert_eq. simpl. now rewrite Hr.
  - exact Hkept.
  - unfold getHistory at 1 2. fold (history_entries w2).
    rewrite deref_alloc. exact Hkept.
Qed.

End HistoryCopy.

Lemma getHistory_fresh_copy_witness :
  let w := after (commit returns_seven 5 "M" (VNum 1) one_mutation_world) in
  let r := fst (getHistory w) in
  let w1 := snd (getHistory w) in
  let w2 := array_update r (@rev HistoryEntry) w1 in
  history_live w /\
  r <> history (store w) /\
  deref r w1 = history_entries w /\
  deref r w2 = rev (history_entries w) /\
  store w2 = store w /\
  history_entries w2 = history_entries w /\
  deref (fst (getHistory w2)) (snd (getHistory w2)) = history_entries w.
Proof.
  intros w.
  assert (Hlive : history_live w) by (vm_compute; eexists; reflexivity).
  split; [exact Hlive|].
  exact (getHistory_fresh_copy (@rev HistoryEntry) w Hlive).
Defined.

(** ** The bounded history *)

Section History.

(** [this.history = a] for a new array [a]. *)
Lemma history_entries_replaced (a : list HistoryEntry) (w : World) :
  history_entries
    (let '(r, w2) := alloc a w in set_store (set_history r (store w2)) w2) = a /\
  maxHistorySize
    (store (let '(r, w2) := alloc a w in set_store (set_history r (store w2)) w2))
  = maxHistorySize (store w).
Proof.
  unfold history_entries, alloc, deref. simpl.
  now rewrite lookup_insert_eq.
Qed.

Lemma history_entries_addToHistory (e : HistoryEntry) (w : World) :
  history_entries (addToHistory e w)
  = let a := history_entries w ++ [e] in
    if Z.of_nat (length a) >? maxHistorySize (store w)
    then slice_from (- maxHistorySize (store w)) a
    else a.
Proof.
  unfold addToHistory, history_entries.
  assert (Hpush : deref (history (store w))
                    (array_update (history (store w)) (fun a => a ++ [e]) w)
                  = deref (history (store w)) w ++ [e]).
  { unfold array_update, deref at 1. simpl. now rewrite lookup_insert_eq. }
  change (history (store (array_update (history (store w))
                            (fun a => a ++ [e]) w)))
    with (history (store w)).
  change (maxHistorySize (store (array_update (history (store w))
                                   (fun a => a ++ [e]) w)))
    with (maxHistorySize (store w)).
  rewrite Hpush. cbv zeta.
  destruct (_ >? _); [|exact Hpush].
  match goal with
  | |- context [alloc ?a ?w0] =>
      rewrite (surjective_pairing (alloc a w0)); simpl;
      apply (deref_alloc a w0)
  end.
Qed.

Lemma slice_from_negative {A : Type} (n : Z) (l : list A) :
  0 < n -> slice_from (- n) l = last_entries (Z.to_nat n) l.
Proof.
  intros Hn. unfold slice_from, last_entries.
  destruct (Z.ltb_spec (- n) 0); [|lia]. f_equal. lia.
Qed.

Lemma slice_from_zero {A : Type} (l : list A) : slice_from (- 0) l = l.
Proof. unfold slice_from. simpl. rewrite Z.min_l by lia. reflexivity. Qed.

Lemma last_entries_all {A : Type} (n : nat) (l : list A) :
  (length l <= n)%nat -> last_entries n l = l.
Proof.
  intros H. unfold last_entries. replace (length l - n)%nat with 0%nat by lia.
  reflexivity.
Qed.

Lemma length_last_entries {A : Type} (n : nat) (l : list A) :
  (length (last_entries n l) <= n)%nat.
Proof. unfold last_entries. rewrite length_drop. lia. Qed.

Lemma last_entries_app {A : Type} (n : nat) (l k : list A) :
  last_entries n (last_entries n l ++ k) = last_entries n (l ++ k).
Proof.
  unfold last_entries. rewrite !length_app, length_drop.
  destruct (le_lt_dec (length l) n) as [Hle|Hgt].
  - replace (length l - n)%nat with 0%nat by lia.
    rewrite drop_0, Nat.sub_0_r. reflexivity.
  - replace (length l - (length l - n) + length k - n)%nat
      with (length k) by lia.
    replace (length l + length k - n)%nat
      with ((length l - n) + length k)%nat by lia.
    rewrite <- drop_drop. rewrite (drop_app_le l k) by lia. reflexivity.
Qed.

(** A store of capacity 0 never drops an entry: [slice(-0)] is the whole
    array. *)
Lemma addToHistory_capacity_zero (e : HistoryEntry) (w : World) :
  maxHistorySize (store w) = 0 ->
  history_entries (addToHistory e w) = history_entries w ++ [e].
Proof.
  intros H0. rewrite history_entries_addToHistory, H0. cbv zeta.
  destruct (_ >? _); [apply slice_from_zero | reflexivity].
Qed.

(** With a positive capacity the history is the last [capacity] entries of
    what was appended. *)
Lemma addToHistory_positive_capacity (e : HistoryEntry) (w : World) :
  0 < maxHistorySize (store w) ->
  history_entries (addToHistory e w)
  = last_entries (Z.to_nat (maxHistorySize (store w))) (history_entries w ++ [e]).
Proof.
  intros Hpos. rewrite history_entries_addToHistory. cbv zeta.
  destruct (Z.gtb_spec (Z.of_nat (length (history_entries w ++ [e])))
              (maxHistorySize (store w))).
  - now apply slice_from_negative.
  - symmetry. apply last_entries_all. lia.
Qed.

Lemma history_entries_setMaxHistorySize (size : Z) (w : World) :
  0 < size ->
  maxHistorySize (store (setMaxHistorySize size w)) = size /\
  history_entries (setMaxHistorySize size w)
  = last_entries (Z.to_nat size) (history_entries w).
Proof.
  intros Hpos. unfold setMaxHistorySize. cbv zeta.
  change (deref (history (store (set_store (set_maxHistorySize size (store w)) w)))
            (set_store (set_maxHistorySize size (store w)) w))
    with (history_entries w).
  destruct (Z.gtb_spec (Z.of_nat (length (history_entries w))) size).
  - destruct (history_entries_replaced (slice_from (- size) (history_entries w))
                (set_store (set_maxHistorySize size (store w)) w)) as (He & Hm).
    rewrite He, Hm. split; [reflexivity|]. now apply slice_from_negative.
  - split; [reflexivity|].
    change (history_entries (set_store (set_maxHistorySize size (store w)) w))
      with (history_entries w).
    symmetry. apply last_entries_all. lia.
Qed.

(** Appending a run of entries to a store of positive capacity [n] leaves
    the last [n] of all entries, in the order they were appended, and so at
    most [n] of them. *)
Lemma history_after_appends (es : list HistoryEntry) :
  forall w,
    0 < maxHistorySize (store w) ->
    (length (history_entries w) <= Z.to_nat (maxHistorySize (store w)))%nat ->
    let w' := fold_left (fun w e => addToHistory e w) es w in
    maxHistorySize (store w') = maxHistorySize (store w) /\
    history_entries w'
    = last_entries (Z.to_nat (maxHistorySize (store w))) (history_entries w ++ es) /\
    (length (history_entries w') <= Z.to_nat (maxHistorySize (store w)))%nat.
Proof.
  induction es as [|e es IH]; intros w Hpos Hlen; simpl.
  - rewrite app_nil_r. repeat split; [|exact Hlen].
    symmetry. now apply last_entries_all.
  - destruct (addToHistory_frame e w) as (_ & _ & _ & _ & Hmax & _).
    pose proof (addToHistory_positive_capacity e w Hpos) as Hadd.
    destruct (IH (addToHistory e w)) as (IHmax & IHent & IHlen).
    + now rewrite Hmax.
    + rewrite Hmax, Hadd. apply length_last_entries.
    + rewrite Hmax in *. repeat split; [exact IHmax| |exact IHlen].
      rewrite IHent, Hadd, last_entries_app, <- app_assoc. reflexivity.
Qed.

End History.

Section CommitHistory.
Variable call : Fn -> Value -> list Value -> World -> Completion * World.

Lemma history_entries_part (w w' : World) :
  history_part w = history_part w' -> history_entries w = history_entries w'.
Proof.
  unfold history_part, history_entries, deref. intros H.
  injection H as Ha Hh _. now rewrite Ha, Hh.
Qed.


(** The loop over the subscribers never throws: it returns or is still
    running. *)
Lemma set_forEach_notify_never_throws (prevState : Props) (mutation : Value)
    (fuel : nat) :
  forall index w e,
    outcome (set_forEach fuel (fun w => subscribers (store w))
                         (notify_one call prevState mutation) index w)
    <> Throw e.
Proof.
  induction fuel as [|fuel IH]; intros index w e; simpl; [discriminate|].
  destruct (subscribers (store w) !! index) as [[cb|]|]; simpl.
  - destruct (notify_one_step call (fun _ => tt) (fun _ _ => eq_refl)
                (fun _ _ _ _ _ => eq_refl) prevState mutation cb w)
      as (w' & Hstep & _).
    rewrite (bind_returns _ _ _ _ _ _ Hstep). simpl. apply IH.
  - apply IH.
  - discriminate.
Qed.

Lemma notifySubscribers_never_throws (fuel : nat) (prevState : Props)
    (mutation : Value) (w : World) (e : Exn) :
  outcome (notifySubscribers call fuel prevState mutation w) <> Throw e.
Proof. apply set_forEach_notify_never_throws. Qed.

(** A commit that returned has called a registered mutation function,
    which returned, and has appended one entry to the history the mutation
    function left. *)
Lemma commit_returned_inv (fuel : nat) (m : string) (p : Value) (w : World) :
  outcome (commit call fuel m p w) = Ret tt ->
  exists f v w1,
    mutations (store w) !! m = Some f /\
    call f VUndefined [VObj (state (store w)); default_null p] (committing w)
      = (Returned v, w1) /\
    (observers_keep history_part call ->
     history_part (after (commit call fuel m p w))
     = history_part
         (addToHistory (commit_entry m (default_null p) (state (store w)) w1)
                       w1)).
Proof.
  intros Hret.
  destruct (mutations (store w) !! m) as [f|] eqn:Hreg.
  2:{ rewrite (commit_unknown_step call fuel m p w Hreg) in Hret.
      discriminate Hret. }
  destruct (call f VUndefined [VObj (state (store w)); default_null p]
              (committing w)) as [[v|e] w1] eqn:Hcall.
  2:{ rewrite (commit_threw call fuel m f p e w w1 Hreg Hcall) in Hret.
      discriminate Hret. }
  exists f, v, w1. split; [reflexivity|]. split; [exact Hcall|].
  intros Hhist.
  set (w2 := addToHistory
               (commit_entry m (default_null p) (state (store w)) w1) w1).
  destruct (outcome (notifySubscribers call fuel (state (store w))
                       (mutation_descriptor m (default_null p)) w2))
    as [[]|e|] eqn:Hsn.
  - rewrite (commit_returned call fuel m f p v w w1 Hreg Hcall Hsn).
    cbn [after].
    match goal with
    | |- history_part (set_store _ ?w0) = _ =>
        change (history_part (set_store _ w0)) with (history_part w0)
    end.
    rewrite (emit_keeps call history_part)
      by first [exact Hhist | intros; reflexivity].
    fold w2.
    apply (notifySubscribers_keeps call history_part);
      first [exact Hhist | intros; reflexivity].
  - exfalso. exact (notifySubscribers_never_throws _ _ _ _ _ Hsn).
  - exfalso.
    rewrite (commit_out_of_fuel call fuel m f p v w w1 Hreg Hcall Hsn) in Hret.
    discriminate Hret.
Qed.


Lemma length_last_entries_full {A : Type} (n : nat) (l : list A) :
  (n <= length l)%nat -> length (last_entries n l) = n.
Proof. intros H. unfold last_entries. rewrite length_drop. lia. Qed.


End CommitHistory.

(** C1, on the code: a store whose capacity was set to 0 keeps every entry.
    After three commits [getHistory] returns three entries, more than the
    capacity; [addToHistory_capacity_zero] gives the reason, and
    [history_after_appends] the bound for every positive capacity. *)
Theorem history_exceeds_capacity_zero :
  let w := three_commits zero_capacity_world in
  maxHistorySize (store w) = 0 /\
  map h_payload (deref (fst (getHistory w)) (snd (getHistory w)))
  = [VNum 1; VNum 2; VNum 3] /\
  Z.of_nat (length (history_entries w)) > maxHistorySize (store w).
Proof. vm_compute. repeat split; reflexivity. Qed.

(** The same three commits with capacity 2 leave the last two entries. *)
Example history_capacity_two :
  let w := three_commits (setMaxHistorySize 2 one_mutation_world) in
  map h_payload (deref (fst (getHistory w)) (snd (getHistory w)))
  = [VNum 2; VNum 3].
Proof. vm_compute. reflexivity. Qed.

(** Lowering the capacity to 0 does not empty a history that has entries. *)
Example shrink_to_zero_keeps_all :
  let w := setMaxHistorySize 0 (three_commits one_mutation_world) in
  maxHistorySize (store w) = 0 /\ length (history_entries w) = 3%nat.
Proof. vm_compute. split; reflexivity. Qed.

(** ** Listeners registered with [once] *)

Section Once.
Variable call : Fn -> Value -> list Value -> World -> Completion * World.

(** A [once] listener whose callback returns is deleted from the Set of its
    event right after the call. *)
Lemma emit_one_once_returns (event : string) (data v : Value) (l : Listener)
    (w w1 : World) (s : list (option Listener)) :
  truthy (once_flag l) = true ->
  call (callback l) (receiver l) [data] w = (Returned v, w1) ->
  events (bus w1) !! event = Some s ->
  events (bus (after (emit_one call event data l w))) !! event
  = Some (set_delete same_listener l s).
Proof.
  intros Honce Hcall Hev.
  unfold emit_one, invoke, delete_listener, receiver in *. unfold_monad.
  destruct (truthy (context l)); simpl; rewrite Hcall; simpl;
    rewrite Honce; simpl; rewrite Hev; simpl;
    now rewrite lookup_alter_eq, Hev.
Qed.

(** A listener whose callback throws is left in the Set, [once] or not:
    the [delete] is skipped with the rest of the [try] block. *)
Lemma emit_one_throws (event : string) (data : Value) (e : Exn) (l : Listener)
    (w w1 : World) :
  call (callback l) (receiver l) [data] w = (Threw e, w1) ->
  bus (after (emit_one call event data l w)) = bus w1.
Proof.
  intros Hcall.
  unfold emit_one, invoke, delete_listener, receiver in *. unfold_monad.
  destruct (truthy (context l)); simpl; rewrite Hcall; reflexivity.
Qed.

End Once.

(** C2, on the code: a [once] listener whose callback throws is called in
    the first round, is still counted by [getListenerCount] after it, and is
    called again in the second round. *)
Theorem once_listener_that_throws_stays :
  let s1 := emit first_throws "T" VNull once_world in
  let s2 := emit first_throws "T" VNull (after s1) in
  map once_flag (listeners_of "T" once_world) = [VBool true] /\
  listener_calls "T" (trace s1) = [0%nat] /\
  map inv_result (trace s1) = [Threw (JsError "boom")] /\
  getListenerCount "T" (after s1) = 1%nat /\
  listener_calls "T" (trace s2) = [0%nat].
Proof. vm_compute. repeat split; reflexivity. Qed.

(** The same listener with a callback that returns: one call, then gone. *)
Example once_listener_that_returns_leaves :
  let s1 := emit returns_seven "T" VNull once_world in
  let s2 := emit returns_seven "T" VNull (after s1) in
  listener_calls "T" (trace s1) = [0%nat] /\
  getListenerCount "T" (after s1) = 0%nat /\
  listener_calls "T" (trace s2) = [].
Proof. vm_compute. repeat split; reflexivity. Qed.

(** ** Determinism of [commit] *)

Lemma prop_set_twice (k : string) (v v' : Value) (o : Props) :
  prop_set k v (prop_set k v' o) = prop_set k v o.
Proof.
  induction o as [|[k0 v0] o IH]; simpl.
  - now rewrite String.eqb_refl.
  - destruct (String.eqb_spec k k0) as [->|Hne]; simpl.
    + now rewrite String.eqb_refl.
    + destruct (String.eqb_spec k k0); [congruence|]. now rewrite IH.
Qed.

Section Determinism.
Variable call : Fn -> Value -> list Value -> World -> Completion * World.

(** The state a commit leaves is the state its mutation function left,
    when listeners and subscribers do not write the state record. *)
Lemma commit_state (fuel : nat) (m : string) (f : Fn) (p : Value)
    (c : Completion) (w w' : World) :
  keeps_subscribers call ->
  observers_keep (fun w => state (store w)) call ->
  mutations (store w) !! m = Some f ->
  call f VUndefined [VObj (state (store w)); default_null p] (committing w)
    = (c, w') ->
  (length (subscribers (store w)) < fuel)%nat ->
  outcome (commit call fuel m p w)
  = match c with Returned _ => Ret tt | Threw e => Throw e end /\
  state (store (after (commit call fuel m p w))) = state (store w').
Proof.
  intros Hkeep Hstate Hreg Hcall Hfuel. destruct c as [v|e].
  - pose proof (keeps_subscribers_observers call Hkeep) as Hobs.
    set (w2 := addToHistory
                 (commit_entry m (default_null p) (state (store w)) w') w').
    destruct (addToHistory_frame
                (commit_entry m (default_null p) (state (store w)) w') w')
      as (_ & Hst & _ & Hsub & _).
    fold w2 in Hst, Hsub.
    assert (Hw2 : subscribers (store w2) = subscribers (store w)).
    { rewrite Hsub.
      pose proof (Hkeep f VUndefined
                    [VObj (state (store w)); default_null p] (committing w)) as H'.
      now rewrite Hcall in H'. }
    destruct (notifySubscribers_round call fuel (state (store w))
                (mutation_descriptor m (default_null p)) w2 Hobs)
      as (Hn1 & _); [rewrite Hw2; exact Hfuel|].
    rewrite (commit_returned call fuel m f p v w w' Hreg Hcall Hn1).
    split; [reflexivity|]. cbn [after].
    match goal with
    | |- state (store (set_store _ ?w0)) = _ =>
        change (state (store (set_store _ w0))) with (state (store w0))
    end.
    rewrite (emit_keeps call (fun w => state (store w)))
      by first [exact Hstate | intros; reflexivity].
    fold w2.
    rewrite (notifySubscribers_keeps call (fun w => state (store w)))
      by first [exact Hstate | intros; reflexivity].
    exact Hst.
  - rewrite (commit_threw call fuel m f p e w w' Hreg Hcall).
    split; reflexivity.
Qed.

(** Two commits of the same registered mutation with the same payload,
    started from equal state records, end the same way and leave equal
    state records, whatever else differs between the two worlds (clock,
    history, listeners), when the mutation function reads nothing but its
    arguments and the state, and listeners and subscribers do not write the
    state record. *)
Lemma commit_deterministic (fuel1 fuel2 : nat) (m : string) (f : Fn)
    (p : Value) (w1 w2 : World) :
  reads_state_only call f ->
  observers_keep (fun w => state (store w)) call ->
  keeps_subscribers call ->
  mutations (store w1) !! m = Some f ->
  mutations (store w2) !! m = Some f ->
  state (store w1) = state (store w2) ->
  (length (subscribers (store w1)) < fuel1)%nat ->
  (length (subscribers (store w2)) < fuel2)%nat ->
  let s1 := commit call fuel1 m p w1 in
  let s2 := commit call fuel2 m p w2 in
  outcome s1 = outcome s2 /\
  outcome s1 <> OutOfFuel /\
  state (store (after s1)) = state (store (after s2)).
Proof.
  intros Hpure Hstate Hkeep Hreg1 Hreg2 Heq Hfuel1 Hfuel2 s1 s2.
  destruct (Hpure VUndefined [VObj (state (store w1)); default_null p]
              (committing w1) (committing w2) Heq) as (Hc & Hs).
  destruct (call f VUndefined [VObj (state (store w1)); default_null p]
              (committing w1)) as [c1 w1'] eqn:Hc1.
  destruct (call f VUndefined [VObj (state (store w1)); default_null p]
              (committing w2)) as [c2 w2'] eqn:Hc2.
  simpl in Hc, Hs. subst c2. rewrite Heq in Hc2.
  destruct (commit_state fuel1 m f p c1 w1 w1' Hkeep Hstate Hreg1 Hc1 Hfuel1)
    as (Ho1 & Hst1).
  destruct (commit_state fuel2 m f p c1 w2 w2' Hkeep Hstate Hreg2 Hc2 Hfuel2)
    as (Ho2 & Hst2).
  unfold s1, s2. rewrite Ho1, Ho2, Hst1, Hst2.
  repeat split; [|exact Hs]. destruct c1; discriminate.
Qed.


(** A commit that returns leaves the registry of mutations and the set of
    subscribers as they were, when no client function changes them. *)
Lemma commit_keeps_registries (fuel : nat) (name : string) (p : Value)
    (w : World) :
  keeps_subscribers call ->
  keeps_mutations call ->
  outcome (commit call fuel name p w) = Ret tt ->
  mutations (store (after (commit call fuel name p w))) = mutations (store w) /\
  subscribers (store (after (commit call fuel name p w)))
  = subscribers (store w).
Proof.
  intros call_subscribers call_mutations Hret.
  set (proj := fun w : World => (mutations (store w), subscribers (store w))).
  assert (Hproj : forall f this args w0,
             proj (snd (call f this args w0)) = proj w0).
  { intros f this args w0. unfold proj.
    now rewrite call_mutations, call_subscribers. }
  enough (H : proj (after (commit call fuel name p w)) = proj w).
  { unfold proj in H. now injection H. }
  destruct (mutations (store w) !! name) as [f|] eqn:Hreg.
  2:{ rewrite (commit_unknown_step call fuel name p w Hreg) in Hret.
      discriminate Hret. }
  destruct (call f VUndefined [VObj (state (store w)); default_null p]
              (committing w)) as [[v|e] w1] eqn:Hcall.
  2:{ rewrite (commit_threw call fuel name f p e w w1 Hreg Hcall) in Hret.
      discriminate Hret. }
  set (w2 := addToHistory
               (commit_entry name (default_null p) (state (store w)) w1) w1).
  destruct (outcome (notifySubscribers call fuel (state (store w))
                       (mutation_descriptor name (default_null p)) w2))
    as [[]|e|] eqn:Hsn.
  - rewrite (commit_returned call fuel name f p v w w1 Hreg Hcall Hsn).
    cbn [after].
    match goal with
    | |- proj (set_store _ ?w0) = _ =>
        change (proj (set_store _ w0)) with (proj w0)
    end.
    rewrite (emit_keeps call proj)
      by first [unfold observers_keep; intros; apply Hproj
               | intros; reflexivity].
    fold w2.
    rewrite (notifySubscribers_keeps call proj)
      by first [unfold observers_keep; intros; apply Hproj
               | intros; reflexivity].
    destruct (addToHistory_frame
                (commit_entry name (default_null p) (state (store w)) w1) w1)
      as (_ & _ & Hmu & Hsub & _).
    fold w2 in Hmu, Hsub. unfold proj. rewrite Hmu, Hsub.
    pose proof (Hproj f VUndefined
                  [VObj (state (store w)); default_null p] (committing w)) as H.
    rewrite Hcall in H. exact H.
  - exfalso. eapply notifySubscribers_never_throws. exact Hsn.
  - exfalso.
    rewrite (commit_out_of_fuel call fuel name f p v w w1 Hreg Hcall Hsn) in Hret.
    discriminate Hret.
Qed.

(** C8, as the code has it: when the mutation function is idempotent on the
    state record, committing it twice with the same payload leaves the
    state that committing it once leaves, and both commits return.  This
    is for a first call of the mutation function that returns, for
    listeners and subscribers that do not write the state record, and for
    client functions that leave the subscriber Set and the registry of
    mutations alone. *)
Theorem commit_twice_idempotent_mutation (fuel : nat) (m : string) (f : Fn)
    (p v : Value) (w w1 : World) :
  idempotent_mutation call f ->
  observers_keep (fun w => state (store w)) call ->
  keeps_subscribers call ->
  keeps_mutations call ->
  mutations (store w) !! m = Some f ->
  call f VUndefined [VObj (state (store w)); default_null p] (committing w)
    = (Returned v, w1) ->
  (length (subscribers (store w)) < fuel)%nat ->
  let s1 := commit call fuel m p w in
  let s2 := commit call fuel m p (after s1) in
  outcome s1 = Ret tt /\
  outcome s2 = Ret tt /\
  commit_idempotent call fuel m p w.
Proof.
  intros Hidem Hstate Hkeep Hmut Hreg Hcall Hfuel s1 s2.
  destruct (commit_state fuel m f p (Returned v) w w1 Hkeep Hstate Hreg Hcall
              Hfuel) as (Ho1 & Hs1).
  fold s1 in Ho1, Hs1.
  destruct (commit_keeps_registries fuel m p w Hkeep Hmut Ho1) as (Hmu & Hsub).
  fold s1 in Hmu, Hsub.
  destruct (Hidem VUndefined (default_null p) (committing w) v w1 Hcall
              (committing (after s1)) Hs1) as (v' & w3 & Hcall2 & Hs3).
  change (state (store (committing (after s1))))
    with (state (store (after s1))) in Hcall2.
  destruct (commit_state fuel m f p (Returned v') (after s1) w3 Hkeep Hstate)
    as (Ho2 & Hs2).
  { rewrite Hmu. exact Hreg. }
  { exact Hcall2. }
  { rewrite Hsub. exact Hfuel. }
  fold s2 in Ho2, Hs2.
  split; [exact Ho1|]. split; [exact Ho2|].
  unfold commit_idempotent. fold s1. fold s2.
  rewrite Hs2, Hs1. exact Hs3.
Qed.

End Determinism.

Lemma add_order_reads_state_only : reads_state_only add_order 1%nat.
Proof.
  intros this args w1 w2 Heq. unfold add_order. simpl.
  destruct args as [|[] [|order [|]]]; try (split; [reflexivity | exact Heq]).
  rewrite Heq.
  destruct (prop_get "orders" (state (store w2)));
    split; try reflexivity; exact Heq.
Defined.

Lemma add_order_keeps_subscribers : keeps_subscribers add_order.
Proof.
  intros f this args w. unfold add_order.
  destruct (Nat.eqb f 1); [|reflexivity].
  destruct args as [|[] [|order [|]]]; try reflexivity.
  destruct (prop_get "orders" (state (store w))); reflexivity.
Defined.

Lemma add_order_observers_keep_state :
  observers_keep (fun w => state (store w)) add_order.
Proof.
  intros f this args w Hlen. unfold add_order.
  destruct (Nat.eqb f 1); [|reflexivity].
  destruct args as [|[] [|order [|]]]; try reflexivity.
  exfalso. apply Hlen. reflexivity.
Defined.

(** C8 as stated fails on [ADD_ORDER], which reads nothing but its arguments
    and the state: two commits leave two orders, one commit leaves one. *)
Lemma pure_mutation_not_idempotent :
  reads_state_only add_order 1%nat /\
  mutations (store orders_world) !! "ADD_ORDER" = Some 1%nat /\
  outcome (commit add_order 5 "ADD_ORDER" (VStr "o1") orders_world) = Ret tt /\
  ~ commit_idempotent add_order 5 "ADD_ORDER" (VStr "o1") orders_world.
Proof.
  split; [exact add_order_reads_state_only|].
  split; [reflexivity|]. split; [reflexivity|].
  unfold commit_idempotent. vm_compute. intros H. discriminate H.
Qed.

Lemma set_orders_idempotent : idempotent_mutation set_orders 1%nat.
Proof.
  intros this p w v w1 Hcall w2 Hst. unfold set_orders in *. simpl in *.
  injection Hcall as _ <-. simpl in Hst.
  eexists. eexists. split; [reflexivity|]. simpl.
  rewrite Hst. apply prop_set_twice.
Defined.

Lemma set_orders_observers_keep_state :
  observers_keep (fun w => state (store w)) set_orders.
Proof.
  intros f this args w Hlen. unfold set_orders.
  destruct (Nat.eqb f 1); [|reflexivity].
  destruct args as [|[] [|orders [|]]]; try reflexivity.
  exfalso. apply Hlen. reflexivity.
Defined.

Lemma set_orders_keeps_subscribers : keeps_subscribers set_orders.
Proof.
  intros f this args w. unfold set_orders.
  destruct (Nat.eqb f 1); [|reflexivity].
  destruct args as [|[] [|orders [|]]]; reflexivity.
Defined.

Lemma set_orders_keeps_mutations : keeps_mutations set_orders.
Proof.
  intros f this args w. unfold set_orders.
  destruct (Nat.eqb f 1); [|reflexivity].
  destruct args as [|[] [|orders [|]]]; reflexivity.
Defined.

Lemma commit_twice_idempotent_mutation_witness :
  let w := set_orders_world in
  let p := VArr [VStr "o2"; VStr "o3"] in
  let s1 := commit set_orders 5 "SET_ORDERS" p w in
  let s2 := commit set_orders 5 "SET_ORDERS" p (after s1) in
  state (store (after s1)) <> state (store w) /\
  outcome s1 = Ret tt /\
  outcome s2 = Ret tt /\
  commit_idempotent set_orders 5 "SET_ORDERS" p w.
Proof.
  intros w p s1 s2. split; [vm_compute; discriminate|].
  apply (commit_twice_idempotent_mutation set_orders 5 "SET_ORDERS" 1%nat p
           VUndefined w
           (set_store (set_state (prop_set "orders" p (state (store w)))
                                 (store (committing w))) (committing w))).
  - exact set_orders_idempotent.
  - exact set_orders_observers_keep_state.
  - exact set_orders_keeps_subscribers.
  - exact set_orders_keeps_mutations.
  - reflexivity.
  - reflexivity.
  - vm_compute. lia.
Defined.

(** * Further properties of the bus *)

Section BusRegistry.

Lemma filter_keeps_all {A : Type} (p : A -> bool) (l : list A) :
  (forall x, In x l -> p x = true) -> List.filter p l = l.
Proof.
  induction l as [|x l IH]; intros H; simpl; [reflexivity|].
  rewrite (H x) by now left. f_equal. apply IH. intros y Hy. apply H. now right.
Qed.

(** [delete] of a listener object leaves the listeners with another
    identity, in their order. *)
Lemma set_values_delete_listener (l : Listener) (s : list (option Listener)) :
  List.NoDup (map lid (set_values s)) ->
  set_values (set_delete same_listener l s)
  = List.filter (fun x => negb (Nat.eqb (lid l) (lid x))) (set_values s).
Proof.
  induction s as [|[y|] s IH]; intros Hnd; simpl.
  - reflexivity.
  - change (set_values (Some y :: s)) with (y :: set_values s) in *.
    simpl in Hnd. apply NoDup_cons_iff in Hnd as [Hy Hnd].
    unfold same_listener at 1. simpl.
    destruct (Nat.eqb_spec (lid l) (lid y)) as [Heq|Hne]; simpl.
    + change (set_values (None :: s)) with (set_values s).
      symmetry. apply filter_keeps_all. intros x Hx.
      apply negb_true_iff, Nat.eqb_neq. intros Hlx. apply Hy.
      rewrite <- Heq, Hlx. now apply in_map.
    + change (set_values (Some y :: set_delete same_listener l s))
        with (y :: set_values (set_delete same_listener l s)).
      f_equal. now apply IH.
  - now apply IH.
Qed.

Lemma find_remove_first (cb : Fn) (l : Listener) (ls : list Listener) :
  List.NoDup (map lid ls) ->
  find (has_callback cb) ls = Some l ->
  List.filter (fun x => negb (Nat.eqb (lid l) (lid x))) ls
  = remove_first (has_callback cb) ls.
Proof.
  induction ls as [|x ls IH]; intros Hnd Hfind; simpl in *; [discriminate|].
  apply NoDup_cons_iff in Hnd as [Hx Hnd].
  destruct (has_callback cb x) eqn:Hcb.
  - injection Hfind as <-. rewrite Nat.eqb_refl. simpl.
    apply filter_keeps_all. intros y Hy.
    apply negb_true_iff, Nat.eqb_neq. intros Heq. apply Hx.
    rewrite Heq. now apply in_map.
  - assert (Hin : In l ls) by (apply find_some in Hfind; tauto).
    destruct (Nat.eqb_spec (lid l) (lid x)) as [Heq|Hne]; simpl.
    + exfalso. apply Hx. rewrite <- Heq. now apply in_map.
    + f_equal. now apply IH.
Qed.

Lemma find_none_remove_first (cb : Fn) (ls : list Listener) :
  find (has_callback cb) ls = None -> remove_first (has_callback cb) ls = ls.
Proof.
  induction ls as [|x ls IH]; simpl; [reflexivity|].
  destruct (has_callback cb x); [discriminate|]. intros H. f_equal. now apply IH.
Qed.

Lemma find_absent (cb : Fn) (ls : list Listener) :
  (forall l, In l ls -> callback l <> cb) -> find (has_callback cb) ls = None.
Proof.
  induction ls as [|x ls IH]; intros H; simpl; [reflexivity|].
  unfold has_callback at 1.
  destruct (Nat.eqb_spec (callback x) cb) as [Heq|_].
  - exfalso. apply (H x); [now left | exact Heq].
  - apply IH. intros l Hl. apply H. now right.
Qed.

(** What [off] leaves of the listeners of its event and of the others. *)
Lemma off_listeners (event : string) (cb : Fn) (w : World) :
  bus_ids_unique w ->
  listeners_of event (off event cb w)
  = remove_first (has_callback cb) (listeners_of event w) /\
  (forall event', event' <> event ->
     listeners_of event' (off event cb w) = listeners_of event' w) /\
  store (off event cb w) = store w /\
  arrays (off event cb w) = arrays w.
Proof.
  intros Huniq'.
  assert (Huniq : forall event s, events (bus w) !! event = Some s ->
                    List.NoDup (map lid (set_values s))).
  { intros ev s Hev. specialize (Huniq' ev). unfold listeners_of in Huniq'.
    now rewrite Hev in Huniq'. }
  clear Huniq'. unfold off, listeners_of.
  destruct (events (bus w) !! event) as [s|] eqn:Hev; simpl.
  2:{ rewrite Hev. repeat split. }
  fold (has_callback cb).
  destruct (find (has_callback cb) (set_values s)) as [l|] eqn:Hfind.
  - rewrite bus_log_events. simpl. rewrite lookup_alter_eq, Hev. simpl.
    rewrite (set_values_delete_listener l s (Huniq event s Hev)).
    rewrite (find_remove_first cb l _ (Huniq event s Hev) Hfind).
    split; [reflexivity|]. split; [|split].
    + intros event' Hne. rewrite ?bus_log_events. simpl.
      now rewrite lookup_alter_ne by congruence.
    + unfold bus_log. now destruct (debug _).
    + unfold bus_log. now destruct (debug _).
  - rewrite Hev. simpl. rewrite (find_none_remove_first cb _ Hfind).
    repeat split.
Qed.

(** X2: [off] removes one registration: the first listener of the event,
    in registration order, whose callback is the given function.  Later
    listeners with the same callback, the listeners of other events, and
    the store stay as they are. *)
Theorem off_removes_first_registration (event : string) (cb : Fn) (w : World) :
  bus_ids_unique w ->
  listeners_of event (off event cb w)
  = remove_first (has_callback cb) (listeners_of event w) /\
  (forall event', event' <> event ->
     listeners_of event' (off event cb w) = listeners_of event' w) /\
  store (off event cb w) = store w.
Proof.
  intros Huniq.
  destruct (off_listeners event cb w Huniq) as (H1 & H2 & H3 & _).
  repeat split; assumption.
Qed.

(** X3: [off] for an event that was never subscribed to, or for a function
    that is not the callback of any of its listeners, does nothing at all:
    the world is the same, and nothing is logged even in debug mode. *)
Theorem off_unknown_is_noop (event : string) (cb : Fn) (w : World) :
  (forall l, In l (listeners_of event w) -> callback l <> cb) ->
  off event cb w = w.
Proof.
  intros Habsent. unfold off. unfold listeners_of in Habsent.
  destruct (events (bus w) !! event) as [s|]; [|reflexivity].
  simpl in Habsent. fold (has_callback cb).
  now rewrite (find_absent cb _ Habsent).
Qed.

Lemma on_other_events (event event' : string) (cb : Fn) (o : Options) (w : World) :
  event' <> event ->
  listeners_of event' (snd (on event cb o w)) = listeners_of event' w.
Proof.
  intros Hne. unfold listeners_of. rewrite on_bus. simpl.
  rewrite lookup_alter_ne by congruence.
  destruct (events (bus w) !! event); [reflexivity|].
  now rewrite lookup_insert_ne by congruence.
Qed.

Lemma bus_wf_listeners (event : string) (w : World) (l : Listener) :
  bus_wf w -> In l (listeners_of event w) -> (lid l < next_lid (bus w))%nat.
Proof.
  intros Hwf Hin. unfold listeners_of in Hin.
  destruct (events (bus w) !! event) as [s|] eqn:Hev; [|destruct Hin].
  apply (Hwf event s l Hev). simpl in Hin.
  unfold set_values in Hin. apply list_elem_of_In in Hin.
  apply list_elem_of_omap in Hin as ([x|] & Hx & Hid); [|discriminate].
  simpl in Hid. injection Hid as ->. now apply list_elem_of_In.
Qed.

Lemma bus_ids_unique_empty_world : bus_ids_unique empty_world.
Proof. intros event. vm_compute. constructor. Qed.

Lemma bus_ids_unique_on (event : string) (cb : Fn) (o : Options) (w : World) :
  bus_wf w -> bus_ids_unique w -> bus_ids_unique (snd (on event cb o w)).
Proof.
  intros Hwf Huniq ev.
  destruct (decide (ev = event)) as [->|Hne].
  - rewrite (on_registers_last event cb o w Hwf), map_app. simpl.
    apply List.NoDup_app.
    + apply Huniq.
    + constructor; [intros [] | constructor].
    + intros x Hx [<-|[]].
      apply in_map_iff in Hx as (l & Hl & Hin).
      pose proof (bus_wf_listeners event w l Hwf Hin). lia.
  - rewrite (on_other_events event ev cb o w Hne). apply Huniq.
Qed.

Lemma getListenerCount_length (event : string) (w : World) :
  getListenerCount event w = length (listeners_of event w).
Proof.
  unfold getListenerCount, listeners_of.
  now destruct (events (bus w) !! event).
Qed.

(** X4: every [on] adds one listener to its event, at the end of the
    registration order, also when the same function is already a callback
    of that event; the listeners of the other events are untouched. *)
Theorem on_adds_one_listener (event : string) (cb : Fn) (o : Options) (w : World) :
  bus_wf w ->
  getListenerCount event (snd (on event cb o w))
  = S (getListenerCount event w) /\
  listeners_of event (snd (on event cb o w))
  = listeners_of event w ++ [make_listener (next_lid (bus w)) cb o] /\
  (forall event', event' <> event ->
     listeners_of event' (snd (on event cb o w)) = listeners_of event' w).
Proof.
  intros Hwf.
  pose proof (on_registers_last event cb o w Hwf) as Hlast.
  split; [|split].
  - rewrite !getListenerCount_length, Hlast, length_app. simpl. lia.
  - exact Hlast.
  - intros event' Hne. now apply on_other_events.
Qed.

Lemma remove_first_app_absent {A : Type} (p : A -> bool) (l : list A) (y : A) :
  (forall x, In x l -> p x = false) -> p y = true ->
  remove_first p (l ++ [y]) = l.
Proof.
  intros Habs Hy. induction l as [|x l IH]; simpl.
  - now rewrite Hy.
  - rewrite (Habs x) by now left. f_equal. apply IH.
    intros z Hz. apply Habs. now right.
Qed.

Lemma remove_first_app_present {A : Type} (p : A -> bool) (l k : list A) (x : A) :
  In x l -> p x = true ->
  remove_first p (l ++ k) = remove_first p l ++ k.
Proof.
  intros Hin Hx. induction l as [|y l IH]; simpl; [destruct Hin|].
  destruct (p y) eqn:Hy; [reflexivity|].
  simpl. f_equal. apply IH. destruct Hin as [->|Hin]; [congruence | exact Hin].
Qed.

(** X5: when the function is not yet a callback of the event, calling the
    closure that [on] returned undoes the registration: the event has the
    listeners it had before, in the same order, and so has every other
    event. *)
Theorem on_then_unsubscribe_restores (event : string) (cb : Fn) (o : Options)
    (w : World) :
  bus_wf w ->
  bus_ids_unique w ->
  (forall l, In l (listeners_of event w) -> callback l <> cb) ->
  let u := fst (on event cb o w) in
  let w1 := snd (on event cb o w) in
  forall event', listeners_of event' (unsubscribe u w1) = listeners_of event' w.
Proof.
  intros Hwf Huniq Habsent u w1 event'.
  destruct (off_listeners event cb w1 (bus_ids_unique_on event cb o w Hwf Huniq))
    as (Hsame & Hother & _).
  change (unsubscribe u w1) with (off event cb w1).
  destruct (decide (event' = event)) as [->|Hne].
  - rewrite Hsame. unfold w1. rewrite (on_registers_last event cb o w Hwf).
    apply remove_first_app_absent.
    + intros x Hx. apply Nat.eqb_neq. now apply Habsent.
    + apply Nat.eqb_refl.
  - rewrite (Hother event' Hne). now apply on_other_events.
Qed.

(** X6: the closure that [on] returns calls [off] with the callback, not
    with the listener: when the function already is a callback of the
    event, calling the closure removes the oldest listener with that
    callback, and the listener the closure was returned for stays
    registered. *)
Theorem unsubscribe_removes_oldest_registration (event : string) (cb : Fn)
    (o : Options) (w : World) (l0 : Listener) :
  bus_wf w ->
  bus_ids_unique w ->
  In l0 (listeners_of event w) ->
  callback l0 = cb ->
  let u := fst (on event cb o w) in
  let w1 := snd (on event cb o w) in
  listeners_of event (unsubscribe u w1)
  = remove_first (has_callback cb) (listeners_of event w)
    ++ [make_listener (next_lid (bus w)) cb o] /\
  getListenerCount event (unsubscribe u w1) = getListenerCount event w.
Proof.
  intros Hwf Huniq Hin Hcb u w1.
  destruct (off_listeners event cb w1 (bus_ids_unique_on event cb o w Hwf Huniq))
    as (Hsame & _).
  change (unsubscribe u w1) with (off event cb w1).
  assert (Hlist : listeners_of event (off event cb w1)
                  = remove_first (has_callback cb) (listeners_of event w)
                    ++ [make_listener (next_lid (bus w)) cb o]).
  { rewrite Hsame. unfold w1. rewrite (on_registers_last event cb o w Hwf).
    apply (remove_first_app_present _ _ _ l0 Hin).
    unfold has_callback. now apply Nat.eqb_eq. }
  split; [exact Hlist|].
  rewrite !getListenerCount_length, Hlist, length_app. simpl.
  assert (Hlen : forall ls, In l0 ls ->
            S (length (remove_first (has_callback cb) ls)) = length ls).
  { intros ls. induction ls as [|x ls IH]; simpl; [intros []|].
    intros Hx. destruct (has_callback cb x) eqn:Hp; [reflexivity|].
    simpl. f_equal. apply IH. destruct Hx as [->|Hx]; [|exact Hx].
    unfold has_callback in Hp. apply Nat.eqb_neq in Hp. congruence. }
  specialize (Hlen _ Hin). lia.
Qed.

Lemma without_ids_nil (ls : list Listener) : without_ids [] ls = ls.
Proof. unfold without_ids. simpl. now apply filter_keeps_all. Qed.

Lemma without_ids_app (a b : list nat) (ls : list Listener) :
  without_ids (a ++ b) ls = without_ids b (without_ids a ls).
Proof.
  unfold without_ids. induction ls as [|x ls IH]; simpl; [reflexivity|].
  rewrite existsb_app.
  destruct (existsb (Nat.eqb (lid x)) a); simpl; [exact IH|].
  destruct (existsb (Nat.eqb (lid x)) b); simpl; [exact IH | now f_equal].
Qed.

Lemma without_ids_one (l : Listener) (ls : list Listener) :
  without_ids [lid l] ls
  = List.filter (fun x => negb (Nat.eqb (lid l) (lid x))) ls.
Proof.
  unfold without_ids. apply filter_ext. intros x. simpl.
  now rewrite orb_false_r, Nat.eqb_sym.
Qed.

Lemma NoDup_map_filter (p : Listener -> bool) (ls : list Listener) :
  List.NoDup (map lid ls) -> List.NoDup (map lid (List.filter p ls)).
Proof.
  induction ls as [|x ls IH]; simpl; intros Hnd; [constructor|].
  apply NoDup_cons_iff in Hnd as [Hx Hnd].
  destruct (p x); simpl; [|now apply IH].
  constructor; [|now apply IH].
  intros Hin. apply Hx. apply in_map_iff in Hin as (y & Hy & Hin).
  apply filter_In in Hin as [Hin _]. rewrite <- Hy. now apply in_map.
Qed.

End BusRegistry.

Section BusMore.
Variable call : Fn -> Value -> list Value -> World -> Completion * World.

(** X1: [emit] calls the listeners of its snapshot in order, each with one
    argument, the data ([null] when the data is [undefined]), and with the
    listener's context as receiver when that context is truthy, with the
    listener object [{callback, once, context}] as receiver otherwise. *)
Theorem emit_calls (event : string) (data : Value) (w : World) :
  map call_shape (trace (emit call event data w))
  = map (listener_call event (default_null data)) (listeners_of event w).
Proof.
  pose proof (emit_shapes call event data w) as H.
  unfold listener_call in *. exact H.
Qed.

(** X7: after [clear] no event has a listener, and an [emit] of any event
    calls nothing and changes nothing. *)
Theorem clear_removes_every_listener (event : string) (data : Value) (w : World) :
  getListenerCount event (clear w) = 0%nat /\
  listeners_of event (clear w) = [] /\
  emit call event data (clear w) = MkStep (Ret tt) (clear w) [].
Proof.
  assert (Hev : events (bus (clear w)) !! event = None).
  { unfold clear. rewrite bus_log_events. simpl. apply lookup_empty. }
  unfold getListenerCount, listeners_of, emit.
  rewrite bind_gets, Hev. repeat split.
Qed.

(** One listener of the round, for callbacks that leave the bus alone: the
    listener is deleted from the Set of the event when it was registered
    with [once] and its call returned, and only then. *)
Lemma emit_one_registry (event : string) (data : Value) (l : Listener)
    (w : World) (s : list (option Listener)) :
  observers_keep bus call ->
  events (bus w) !! event = Some s ->
  exists w' i,
    emit_one call event data l w = MkStep (Ret tt) w' [i] /\
    events (bus w') !! event
    = Some (if truthy (once_flag l) && is_returned (inv_result i)
            then set_delete same_listener l s else s).
Proof.
  intros Hkeep Hev.
  pose proof (Hkeep (callback l) (receiver l) [data] w) as Hbus.
  unfold emit_one, invoke, delete_listener, receiver in *. unfold_monad.
  destruct (truthy (context l)); simpl;
    destruct (call (callback l) _ [data] w) as [[v|e] w1]; simpl in *;
    specialize (Hbus ltac:(discriminate));
    destruct (truthy (once_flag l)); simpl;
    rewrite ?Hbus, ?Hev; simpl;
    do 2 eexists; (split; [reflexivity|]); simpl;
    rewrite ?lookup_alter_eq, ?Hbus, ?Hev; reflexivity.
Qed.

Lemma forEach_emit_registry (event : string) (data : Value) (ls : list Listener) :
  observers_keep bus call ->
  forall w s,
    events (bus w) !! event = Some s ->
    List.NoDup (map lid (set_values s)) ->
    let st := forEach (emit_one call event data) ls w in
    exists s',
      events (bus (after st)) !! event = Some s' /\
      set_values s' = without_ids (once_done ls (trace st)) (set_values s).
Proof.
  intros Hkeep. induction ls as [|l ls IH]; intros w s Hev Hnd; simpl.
  - exists s. split; [exact Hev|]. symmetry. apply without_ids_nil.
  - destruct (emit_one_registry event data l w s Hkeep Hev)
      as (w' & i & Hstep & Hev').
    rewrite (bind_returns _ _ _ _ _ _ Hstep). simpl.
    set (s1 := if truthy (once_flag l) && is_returned (inv_result i)
               then set_delete same_listener l s else s) in *.
    assert (Hs1 : set_values s1
                  = without_ids (if truthy (once_flag l) && is_returned (inv_result i)
                                 then [lid l] else []) (set_values s)).
    { unfold s1. destruct (truthy (once_flag l) && is_returned (inv_result i)).
      - rewrite without_ids_one. now apply set_values_delete_listener.
      - symmetry. apply without_ids_nil. }
    destruct (IH w' s1 Hev') as (s' & Hfin & Hvals).
    { rewrite Hs1. unfold without_ids. now apply NoDup_map_filter. }
    exists s'. split; [exact Hfin|].
    rewrite Hvals, Hs1. symmetry. apply without_ids_app.
Qed.

(** X8: in a round whose callbacks leave the bus alone, [emit] removes from
    the event the listeners that were registered with [once] and whose call
    returned, and no other: the listeners registered without [once], and
    the [once] listeners whose call threw, are still registered after the
    round, in their order. *)
Theorem emit_removes_once_listeners_that_returned (event : string) (data : Value)
    (w : World) :
  observers_keep bus call ->
  bus_ids_unique w ->
  let s := emit call event data w in
  listeners_of event (after s)
  = without_ids (once_done (listeners_of event w) (trace s))
                (listeners_of event w).
Proof.
  intros Hkeep Huniq s. subst s.
  specialize (Huniq event). unfold listeners_of in *. unfold emit.
  rewrite bind_gets.
  destruct (events (bus w) !! event) as [s0|] eqn:Hev; [|simpl; now rewrite Hev].
  rewrite bind_modify, bind_gets, bus_log_events, Hev. simpl in *.
  destruct (forEach_emit_registry event (default_null data) (set_values s0) Hkeep
              (bus_log ("📡 EventBus: событие '" +:+ event +:+ "'") w) s0)
    as (s' & Hfin & Hvals).
  - now rewrite bus_log_events.
  - exact Huniq.
  - rewrite Hfin. exact Hvals.
Qed.

End BusMore.

(** * Further properties of the store *)

Section StoreMore.
Variable call : Fn -> Value -> list Value -> World -> Completion * World.

Lemma observed_part_eq (w w' : World) :
  observed_part w = observed_part w' ->
  bus w = bus w' /\ state (store w) = state (store w') /\
  subscribers (store w) = subscribers (store w').
Proof. unfold observed_part. intros H. injection H as H1 H2 H3. auto. Qed.

Lemma quiet_keeps_subscribers_part :
  quiet_observers call ->
  observers_keep (fun w => subscribers (store w)) call.
Proof.
  intros Hq f this args w Hlen.
  now destruct (observed_part_eq _ _ (Hq f this args w Hlen)) as (_ & _ & H).
Qed.

Lemma quiet_keeps_state_part :
  quiet_observers call -> observers_keep (fun w => state (store w)) call.
Proof.
  intros Hq f this args w Hlen.
  now destruct (observed_part_eq _ _ (Hq f this args w Hlen)) as (_ & H & _).
Qed.

(** The loop over the subscribers, for observers that only observe: how
    each subscriber is called. *)
Lemma notify_loop_shapes (prevState : Props) (mutation : Value) :
  quiet_observers call ->
  forall fuel index w,
    (length (subscribers (store w)) - index < fuel)%nat ->
    let s := set_forEach fuel (fun w => subscribers (store w))
                         (notify_one call prevState mutation) index w in
    outcome s = Ret tt /\
    observed_part (after s) = observed_part w /\
    map call_shape (trace s)
    = map (subscriber_call prevState (state (store w)) mutation)
          (set_values (drop index (subscribers (store w)))).
Proof.
  intros Hq fuel. induction fuel as [|fuel IH]; intros index w Hfuel; [lia|].
  simpl.
  destruct (subscribers (store w) !! index) as [[cb|]|] eqn:Hidx; simpl;
    try pose proof (lookup_lt_Some _ _ _ Hidx) as Hlt.
  - destruct (notify_one_step call observed_part (fun _ _ => eq_refl) Hq
                prevState mutation cb w) as (w' & Hstep & Hsame).
    destruct (observed_part_eq _ _ Hsame) as (_ & Hst & Hsub).
    rewrite (bind_returns _ _ _ _ _ _ Hstep). simpl.
    destruct (IH (S index) w') as (Hout & Hobs & Hshapes);
      [rewrite Hsub; lia|].
    rewrite Hshapes, Hsub, Hst, Hobs, Hsame.
    rewrite (drop_S _ _ _ Hidx), set_values_cons_some.
    repeat split. exact Hout.
  - destruct (IH (S index) w) as (Hout & Hobs & Hshapes); [lia|].
    rewrite (drop_S _ _ _ Hidx), set_values_cons_none.
    repeat split; assumption.
  - apply lookup_ge_None in Hidx. rewrite drop_ge by lia.
    repeat split.
Qed.

(** A commit whose mutation function returned, for observers that only
    observe: the world after it and all the calls it made. *)
Lemma commit_returned_quiet (fuel : nat) (m : string) (f : Fn) (p v : Value)
    (w w1 : World) :
  quiet_observers call ->
  mutations (store w) !! m = Some f ->
  call f VUndefined [VObj (state (store w)); default_null p] (committing w)
    = (Returned v, w1) ->
  (length (subscribers (store w1)) < fuel)%nat ->
  let s := commit call fuel m p w in
  let prev := state (store w) in
  let new := state (store w1) in
  outcome s = Ret tt /\
  isCommitting (store (after s)) = false /\
  state (store (after s)) = new /\
  map call_shape (trace s)
  = (AtMutation m, f, VUndefined, [VObj prev; default_null p])
    :: map (subscriber_call prev new (mutation_descriptor m (default_null p)))
           (set_values (subscribers (store w1)))
    ++ map (listener_call "store:mutation"
              (mutation_event m (default_null p) prev new))
           (listeners_of "store:mutation" w1).
Proof.
  intros Hq Hreg Hcall Hfuel s prev new. subst s.
  set (e := commit_entry m (default_null p) (state (store w)) w1).
  destruct (addToHistory_frame e w1) as (Hbus & Hst & _ & Hsub & _).
  destruct (notify_loop_shapes prev (mutation_descriptor m (default_null p)) Hq
              fuel 0%nat (addToHistory e w1)) as (Hn1 & Hobs & Hshapes).
  { rewrite Hsub. lia. }
  rewrite drop_0, Hst, Hsub in Hshapes.
  destruct (observed_part_eq _ _ Hobs) as (Hbus' & Hst' & _).
  fold (notifySubscribers call fuel prev (mutation_descriptor m (default_null p))
          (addToHistory e w1)) in Hn1, Hshapes, Hbus', Hst'.
  rewrite (commit_returned call fuel m f p v w w1 Hreg Hcall Hn1).
  fold e. cbn [outcome after trace].
  split; [reflexivity|]. split; [reflexivity|]. split.
  - match goal with
    | |- state (store (set_store _ ?w0)) = _ =>
        change (state (store (set_store _ w0))) with (state (store w0))
    end.
    rewrite (emit_keeps call (fun w => state (store w)))
      by first [exact (quiet_keeps_state_part Hq) | intros; reflexivity].
    exact (eq_trans Hst' Hst).
  - cbn [map]. f_equal. rewrite map_app. f_equal; [exact Hshapes|].
    rewrite emit_shapes. unfold listeners_of.
    replace (bus (after (notifySubscribers call fuel (state (store w))
                           (mutation_descriptor m (default_null p))
                           (addToHistory e w1))))
      with (bus w1) by (symmetry; exact (eq_trans Hbus' Hbus)).
    replace (state (store (after (notifySubscribers call fuel (state (store w))
                           (mutation_descriptor m (default_null p))
                           (addToHistory e w1)))))
      with (state (store w1)) by (symmetry; exact (eq_trans Hst' Hst)).
    reflexivity.
Qed.

(** X9: a commit of a registered mutation whose function returns makes
    its calls in this order: the mutation function; every subscriber, in
    subscription order; every listener of [store:mutation], in registration
    order.  The mutation function and the subscribers are called without a
    receiver, a listener with its context, or with the listener object when
    it has none.  This is for listeners and subscribers that leave the bus,
    the state record and the subscriber Set alone. *)
Theorem commit_call_order (fuel : nat) (m : string) (f : Fn) (p v : Value)
    (w w1 : World) :
  quiet_observers call ->
  mutations (store w) !! m = Some f ->
  call f VUndefined [VObj (state (store w)); default_null p] (committing w)
    = (Returned v, w1) ->
  (length (subscribers (store w1)) < fuel)%nat ->
  let s := commit call fuel m p w in
  outcome s = Ret tt /\
  map call_target (trace s)
  = (AtMutation m, f, VUndefined)
    :: map (fun cb => (AtSubscriber, cb, VUndefined))
           (set_values (subscribers (store w1)))
    ++ map (fun l => (AtListener "store:mutation" (lid l), callback l,
                      receiver l))
           (listeners_of "store:mutation" w1).
Proof.
  intros Hq Hreg Hcall Hfuel s.
  destruct (commit_returned_quiet fuel m f p v w w1 Hq Hreg Hcall Hfuel)
    as (H1 & _ & _ & H2).
  fold s in H1, H2.
  split; [exact H1|].
  assert (Ht : forall t, map call_target t = map fst (map call_shape t)).
  { intros t. rewrite map_map. reflexivity. }
  rewrite Ht, H2. cbn [map fst]. f_equal.
  rewrite map_app, !map_map. reflexivity.
Qed.

(** X10: [commit] lowers [isCommitting] whenever it calls a mutation
    function, whether that function returns or throws, and whatever the
    flag was when the commit started: after a commit that ran inside
    another commit the flag is down although the outer one is not over. *)
Theorem commit_lowers_flag (fuel : nat) (m : string) (f : Fn) (p : Value)
    (w : World) :
  keeps_subscribers call ->
  mutations (store w) !! m = Some f ->
  (length (subscribers (store w)) < fuel)%nat ->
  let s := commit call fuel m p w in
  outcome s <> OutOfFuel /\
  isCommitting (store (after s)) = false.
Proof.
  intros Hkeep Hreg Hfuel s. subst s.
  destruct (call f VUndefined [VObj (state (store w)); default_null p]
              (committing w)) as [[v|e] w1] eqn:Hcall.
  - pose proof (keeps_subscribers_observers call Hkeep) as Hobs.
    set (e := commit_entry m (default_null p) (state (store w)) w1).
    destruct (addToHistory_frame e w1) as (_ & _ & _ & Hsub & _).
    assert (Hw1 : subscribers (store w1) = subscribers (store w)).
    { pose proof (Hkeep f VUndefined
                    [VObj (state (store w)); default_null p] (committing w)) as H.
      now rewrite Hcall in H. }
    destruct (notifySubscribers_round call fuel (state (store w))
                (mutation_descriptor m (default_null p)) (addToHistory e w1) Hobs)
      as (Hn1 & _); [rewrite Hsub, Hw1; exact Hfuel|].
    rewrite (commit_returned call fuel m f p v w w1 Hreg Hcall Hn1).
    split; [discriminate | reflexivity].
  - rewrite (commit_threw call fuel m f p e w w1 Hreg Hcall).
    split; [discriminate | reflexivity].
Qed.

Lemma last_last_entries {A : Type} (n : nat) (l : list A) (x : A) :
  (1 <= n)%nat -> last (last_entries n (l ++ [x])) = Some x.
Proof.
  intros Hn. unfold last_entries. rewrite length_app. simpl.
  rewrite drop_app_le by lia. apply last_snoc.
Qed.

(** The entry a commit whose mutation function returned leaves last in
    the history. *)
Lemma commit_last_entry (fuel : nat) (m : string) (f : Fn) (p v : Value)
    (w w1 : World) :
  keeps_subscribers call ->
  observers_keep history_part call ->
  mutations (store w) !! m = Some f ->
  call f VUndefined [VObj (state (store w)); default_null p] (committing w)
    = (Returned v, w1) ->
  (length (subscribers (store w)) < fuel)%nat ->
  0 <= maxHistorySize (store w1) ->
  let s := commit call fuel m p w in
  outcome s = Ret tt /\
  last (history_entries (after s))
  = Some (commit_entry m (default_null p) (state (store w)) w1).
Proof.
  intros Hkeep Hhist Hreg Hcall Hfuel Hcap s. subst s.
  destruct (commit_round call fuel m f p v w w1 Hkeep Hreg Hcall Hfuel)
    as (Hret & _).
  split; [exact Hret|].
  destruct (commit_returned_inv call fuel m p w Hret)
    as (f' & v' & w1' & Hreg' & Hcall' & Hpart).
  rewrite Hreg in Hreg'. injection Hreg' as <-.
  rewrite Hcall in Hcall'. injection Hcall' as <- <-.
  rewrite (history_entries_part _ _ (Hpart Hhist)).
  rewrite history_entries_addToHistory. cbv zeta.
  destruct (_ >? _).
  - destruct (Z.eq_dec (maxHistorySize (store w1)) 0) as [H0|Hne].
    + rewrite H0, slice_from_zero. apply last_snoc.
    + rewrite slice_from_negative by lia. apply last_last_entries. lia.
  - apply last_snoc.
Qed.

(** X11: a commit whose mutation function returned leaves, as the last
    entry of the history, the record of this commit: type [mutation], the
    name, the payload ([null] for [undefined]), the state the mutation left
    and the time read after the mutation; of the copy of the state taken
    before the mutation, every property that held a primitive value still
    reads that value (an array or record the copy shares with the state is
    not spoken of).  This is for a capacity that is not negative, for
    listeners and subscribers that leave the history and the state record
    alone, and for client functions that leave the subscriber Set alone. *)
Theorem commit_records_entry (fuel : nat) (m : string) (f : Fn) (p v : Value)
    (w w1 : World) :
  keeps_subscribers call ->
  observers_keep history_part call ->
  observers_keep (fun w => state (store w)) call ->
  mutations (store w) !! m = Some f ->
  call f VUndefined [VObj (state (store w)); default_null p] (committing w)
    = (Returned v, w1) ->
  (length (subscribers (store w)) < fuel)%nat ->
  0 <= maxHistorySize (store w1) ->
  let s := commit call fuel m p w in
  outcome s = Ret tt /\
  exists e,
    last (history_entries (after s)) = Some e /\
    h_type e = "mutation" /\
    h_name e = m /\
    h_payload e = default_null p /\
    h_newState e = state (store w1) /\
    h_newState e = state (store (after s)) /\
    h_timestamp e = clock w1 /\
    (forall k, primitive (prop_get k (state (store w))) = true ->
               prop_get k (h_prevState e) = prop_get k (state (store w))).
Proof.
  intros Hkeep Hhist Hstate Hreg Hcall Hfuel Hcap s.
  destruct (commit_last_entry fuel m f p v w w1 Hkeep Hhist Hreg Hcall Hfuel
              Hcap) as (Hret & Hlast).
  destruct (commit_state call fuel m f p (Returned v) w w1 Hkeep Hstate Hreg
              Hcall Hfuel) as (_ & Hst).
  fold s in Hret, Hlast, Hst.
  split; [exact Hret|].
  exists (commit_entry m (default_null p) (state (store w)) w1).
  split; [exact Hlast|].
  repeat split; try reflexivity.
  symmetry. exact Hst.
Qed.

End StoreMore.

Section RegistryMore.
Variable call : Fn -> Value -> list Value -> World -> Completion * World.

Lemma bind_trace_prefix {A B : Type} (m : M A) (k : A -> M B) (w : World) :
  exists t, trace (bind m k w) = trace (m w) ++ t.
Proof.
  unfold bind. destruct (outcome (m w)); simpl.
  - eexists. reflexivity.
  - exists []. now rewrite app_nil_r.
  - exists []. now rewrite app_nil_r.
Qed.

Lemma try_catch_trace_prefix {A : Type} (m : M A) (h : Exn -> M A) (w : World) :
  exists t, trace (try_catch m h w) = trace (m w) ++ t.
Proof.
  unfold try_catch. destruct (outcome (m w)); simpl.
  - exists []. now rewrite app_nil_r.
  - eexists. reflexivity.
  - exists []. now rewrite app_nil_r.
Qed.

Lemma try_finally_trace {A : Type} (m : M A) (f : World -> World) (w : World) :
  trace (try_finally m f w) = trace (m w).
Proof. unfold try_finally. now destruct (outcome (m w)). Qed.

(** The first call of a commit of a registered name is the call of the
    function the registry holds for it. *)
Lemma commit_first_call (fuel : nat) (m : string) (f : Fn) (p : Value) (w : World) :
  mutations (store w) !! m = Some f ->
  exists t,
    trace (commit call fuel m p w)
    = MkInvocation (AtMutation m) f VUndefined
        [VObj (state (store w)); default_null p]
        (fst (call f VUndefined [VObj (state (store w)); default_null p]
                   (committing w)))
      :: t.
Proof.
  intros Hreg. unfold commit. rewrite bind_gets, Hreg, bind_gets, bind_modify.
  fold (committing w). rewrite try_finally_trace.
  match goal with
  | |- context [try_catch ?b ?h ?w0] =>
      destruct (try_catch_trace_prefix b h w0) as (t1 & Ht1)
  end.
  rewrite Ht1. unfold commit_body. rewrite bind_gets.
  match goal with
  | |- context [bind ?b ?k ?w0] =>
      destruct (bind_trace_prefix b k w0) as (t2 & Ht2)
  end.
  rewrite Ht2. unfold invoke.
  change (state (store (committing w))) with (state (store w)).
  destruct (call f VUndefined [VObj (state (store w)); default_null p]
              (committing w)) as [c w1].
  simpl. eexists. reflexivity.
Qed.

(** X15: registering a mutation under a name that is taken replaces the
    function and logs one warning; the other names, the state and the
    history are untouched, and the next commit of the name calls the
    function registered last. *)
Theorem registerMutation_overwrites (fuel : nat) (n : string) (f1 f2 : Fn)
    (p : Value) (w : World) :
  let w1 := registerMutation n f1 w in
  let w2 := registerMutation n f2 w1 in
  mutations (store w2) !! n = Some f2 /\
  (forall n', n' <> n -> mutations (store w2) !! n' = mutations (store w) !! n') /\
  console w2
  = console w1
    ++ [MkLogLine LogWarn ("⚠️ Мутация '" +:+ n +:+ "' уже зарегистрирована") None] /\
  state (store w2) = state (store w) /\
  history_entries w2 = history_entries w /\
  exists c t,
    trace (commit call fuel n p w2)
    = MkInvocation (AtMutation n) f2 VUndefined
                   [VObj (state (store w)); default_null p] c :: t.
Proof.
  intros w1 w2.
  assert (Hw1 : mutations (store w1) !! n = Some f1).
  { unfold w1, registerMutation, warn_if.
    destruct (bool_decide _); simpl; apply lookup_insert_eq. }
  assert (Hw2 : mutations (store w2) !! n = Some f2).
  { unfold w2, registerMutation, warn_if.
    destruct (bool_decide _); simpl; apply lookup_insert_eq. }
  assert (Hst : state (store w2) = state (store w)).
  { unfold w2, w1, registerMutation, warn_if.
    repeat destruct (bool_decide _); reflexivity. }
  split; [exact Hw2|]. split; [|split; [|split; [exact Hst|split]]].
  - intros n' Hne. unfold w2, w1, registerMutation, warn_if.
    repeat destruct (bool_decide _); simpl;
      rewrite !lookup_insert_ne by congruence; reflexivity.
  - unfold w2, registerMutation, warn_if.
    rewrite bool_decide_eq_true_2 by (rewrite Hw1; now eexists).
    reflexivity.
  - unfold w2, w1, registerMutation, warn_if.
    repeat destruct (bool_decide _); reflexivity.
  - destruct (commit_first_call fuel n f2 p w2 Hw2) as (t & Ht).
    rewrite Hst in Ht. eexists. exists t. exact Ht.
Qed.

(** X17: [dispatch] of a name that is not in the action registry and
    [getGetter] of a name that is not in the getter registry throw their
    errors before anything is called, published or logged: the world is as
    it was. *)
Theorem unknown_action_and_getter (meanwhile : World -> World) (a g : string)
    (p : Value) (w : World) :
  actions (store w) !! a = None ->
  getters (store w) !! g = None ->
  dispatch call meanwhile a p w
  = MkStep (Throw (JsError ("Действие '" +:+ a +:+ "' не найдено"))) w [] /\
  getGetter call g w
  = MkStep (Throw (JsError ("Геттер '" +:+ g +:+ "' не найден"))) w [].
Proof.
  intros Ha Hg. unfold dispatch, getGetter.
  rewrite !bind_gets, Ha, Hg. split; reflexivity.
Qed.

End RegistryMore.

Section SubscribersMore.

Lemma set_has_member (c : Fn) (s : list (option Fn)) :
  set_has Nat.eqb c s = true -> In c (set_values s).
Proof.
  unfold set_has. induction s as [|[y|] s IH]; simpl.
  - discriminate.
  - intros H. apply orb_true_iff in H as [H|H].
    + left. apply Nat.eqb_eq in H. now symmetry.
    + right. now apply IH.
  - exact IH.
Qed.

Lemma set_delete_appended (c : Fn) (s : list (option Fn)) :
  ~ In c (set_values s) ->
  set_values (set_delete Nat.eqb c (s ++ [Some c])) = set_values s.
Proof.
  induction s as [|[y|] s IH]; simpl; intros Hnot.
  - now rewrite Nat.eqb_refl.
  - change (set_values (Some y :: s)) with (y :: set_values s) in Hnot.
    destruct (Nat.eqb_spec c y) as [->|Hne].
    + exfalso. apply Hnot. now left.
    + change (set_values (Some y :: set_delete Nat.eqb c (s ++ [Some c])))
        with (y :: set_values (set_delete Nat.eqb c (s ++ [Some c]))).
      change (set_values (Some y :: s)) with (y :: set_values s).
      f_equal. apply IH. intros H. apply Hnot. now right.
  - now apply IH.
Qed.

(** X16: [subscribe] of a function that is not subscribed puts it last in
    the notification order, and calling the closure [subscribe] returned
    restores the subscribers there were, in their order; the bus and the
    state are untouched. *)
Theorem subscribe_then_unsubscribe (c : Fn) (w : World) :
  ~ In c (set_values (subscribers (store w))) ->
  let u := fst (subscribe c w) in
  let w1 := snd (subscribe c w) in
  set_values (subscribers (store w1)) = set_values (subscribers (store w)) ++ [c] /\
  set_values (subscribers (store (unsubscribe u w1)))
  = set_values (subscribers (store w)) /\
  bus (unsubscribe u w1) = bus w /\
  state (store (unsubscribe u w1)) = state (store w).
Proof.
  intros Hnot u w1. unfold u, w1, subscribe, unsubscribe. simpl.
  unfold set_add.
  destruct (set_has Nat.eqb c (subscribers (store w))) eqn:Hhas.
  - exfalso. apply Hnot. now apply set_has_member.
  - split; [|split; [|split; reflexivity]].
    + unfold set_values. now rewrite omap_app.
    + now apply set_delete_appended.
Qed.

End SubscribersMore.

Section HistoryMore.

Lemma drop_min_length {A : Type} (k : Z) (l : list A) :
  0 <= k ->
  drop (Z.to_nat (Z.min k (Z.of_nat (length l)))) l = drop (Z.to_nat k) l.
Proof.
  intros Hk. destruct (Z.le_gt_cases k (Z.of_nat (length l))).
  - now rewrite Z.min_l.
  - rewrite Z.min_r by lia. rewrite Nat2Z.id.
    rewrite !drop_ge by lia. reflexivity.
Qed.

(** X13: [setMaxHistorySize] stores the size and truncates at once.  A
    positive size leaves the last [size] entries.  Size 0 leaves every
    entry, and a negative size drops the oldest [-size] entries, as the
    code takes [slice(-size)] in each case. *)
Theorem setMaxHistorySize_entries (size : Z) (w : World) :
  maxHistorySize (store (setMaxHistorySize size w)) = size /\
  history_entries (setMaxHistorySize size w)
  = if 0 <? size
    then last_entries (Z.to_nat size) (history_entries w)
    else drop (Z.to_nat (- size)) (history_entries w).
Proof.
  destruct (Z.ltb_spec 0 size) as [Hpos|Hle].
  - now apply history_entries_setMaxHistorySize.
  - unfold setMaxHistorySize. cbv zeta.
    change (deref (history (store (set_store (set_maxHistorySize size (store w)) w)))
              (set_store (set_maxHistorySize size (store w)) w))
      with (history_entries w).
    destruct (Z.gtb_spec (Z.of_nat (length (history_entries w))) size).
    + destruct (history_entries_replaced (slice_from (- size) (history_entries w))
                  (set_store (set_maxHistorySize size (store w)) w)) as (He & Hm).
      rewrite He, Hm. split; [reflexivity|].
      unfold slice_from. destruct (Z.ltb_spec (- size) 0); [lia|].
      apply drop_min_length. lia.
    + split; [reflexivity|].
      change (history_entries (set_store (set_maxHistorySize size (store w)) w))
        with (history_entries w).
      assert (size = 0) by lia. subst size.
      assert (Hnil : history_entries w = []).
      { destruct (history_entries w); [reflexivity | simpl in *; lia]. }
      now rewrite Hnil.
Qed.

(** X14: [clearHistory] gives the store a new, empty history array and
    keeps the capacity and the state.  It does not empty the old array in
    place: every array that existed, so every copy [getHistory] handed
    out before, has the entries it had. *)
Theorem clearHistory_starts_new_array (r : nat) (w : World) :
  is_Some (arrays w !! r) ->
  history_entries (clearHistory w) = [] /\
  maxHistorySize (store (clearHistory w)) = maxHistorySize (store w) /\
  state (store (clearHistory w)) = state (store w) /\
  deref r (clearHistory w) = deref r w.
Proof.
  intros Hlive.
  destruct (history_entries_replaced [] w) as (He & Hm).
  unfold clearHistory. split; [exact He|]. split; [exact Hm|].
  unfold alloc, deref. simpl. split; [reflexivity|].
  rewrite lookup_insert_ne; [reflexivity|].
  intros Heq. pose proof (is_fresh (dom (arrays w))) as Hfresh.
  rewrite Heq in Hfresh. apply Hfresh. now apply elem_of_dom.
Qed.

End HistoryMore.


Section HistoryBound.
Variable call : Fn -> Value -> list Value -> World -> Completion * World.


End HistoryBound.

(** ** The statements on the bus at concrete inputs *)

Lemma bus_wf_twice_registered_world : bus_wf twice_registered_world.
Proof. repeat apply bus_wf_on. apply bus_wf_empty_world. Defined.

Lemma bus_ids_unique_twice_registered_world : bus_ids_unique twice_registered_world.
Proof.
  unfold twice_registered_world.
  repeat (apply bus_ids_unique_on; [repeat apply bus_wf_on; apply bus_wf_empty_world|]).
  apply bus_ids_unique_empty_world.
Defined.

Lemma bus_ids_unique_one_listener_world : bus_ids_unique one_listener_world.
Proof.
  apply bus_ids_unique_on; [apply bus_wf_empty_world|].
  apply bus_ids_unique_empty_world.
Defined.

Lemma bus_ids_unique_mixed_once_world : bus_ids_unique mixed_once_world.
Proof.
  unfold mixed_once_world, once.
  repeat (apply bus_ids_unique_on; [repeat apply bus_wf_on; apply bus_wf_empty_world|]).
  apply bus_ids_unique_empty_world.
Defined.

Lemma first_throws_keeps_bus : observers_keep bus first_throws.
Proof.
  intros f this args w _. unfold first_throws. now destruct (Nat.eqb f 1).
Defined.

Lemma off_removes_first_registration_witness :
  let w := twice_registered_world in
  map callback (listeners_of "x" w) = [1%nat; 1%nat; 2%nat] /\
  map lid (listeners_of "x" (off "x" 1%nat w)) = [1%nat; 2%nat] /\
  listeners_of "x" (off "x" 1%nat w)
  = remove_first (has_callback 1%nat) (listeners_of "x" w) /\
  (forall event', event' <> "x" ->
     listeners_of event' (off "x" 1%nat w) = listeners_of event' w) /\
  store (off "x" 1%nat w) = store w.
Proof.
  intros w. split; [reflexivity|]. split; [reflexivity|].
  apply (off_removes_first_registration "x" 1%nat w).
  exact bus_ids_unique_twice_registered_world.
Defined.

Lemma off_unknown_is_noop_witness :
  off "y" 1%nat one_listener_world = one_listener_world /\
  off "x" 2%nat one_listener_world = one_listener_world.
Proof.
  split.
  - apply (off_unknown_is_noop "y" 1%nat one_listener_world).
    vm_compute. intros l [].
  - apply (off_unknown_is_noop "x" 2%nat one_listener_world).
    vm_compute. intros l [<-|[]]. discriminate.
Defined.

Lemma on_adds_one_listener_witness :
  let w := one_listener_world in
  getListenerCount "x" w = 1%nat /\
  getListenerCount "x" (snd (on "x" 1%nat no_options w))
  = S (getListenerCount "x" w) /\
  listeners_of "x" (snd (on "x" 1%nat no_options w))
  = listeners_of "x" w ++ [make_listener (next_lid (bus w)) 1%nat no_options] /\
  (forall event', event' <> "x" ->
     listeners_of event' (snd (on "x" 1%nat no_options w))
     = listeners_of event' w).
Proof.
  intros w. split; [reflexivity|].
  apply (on_adds_one_listener "x" 1%nat no_options w).
  exact bus_wf_one_listener_world.
Defined.

Lemma on_then_unsubscribe_restores_witness :
  let w := one_listener_world in
  let u := fst (on "x" 2%nat no_options w) in
  let w1 := snd (on "x" 2%nat no_options w) in
  map callback (listeners_of "x" w1) = [1%nat; 2%nat] /\
  forall event', listeners_of event' (unsubscribe u w1) = listeners_of event' w.
Proof.
  intros w. split; [reflexivity|].
  apply (on_then_unsubscribe_restores "x" 2%nat no_options w).
  - exact bus_wf_one_listener_world.
  - exact bus_ids_unique_one_listener_world.
  - vm_compute. intros l [<-|[]]. discriminate.
Defined.

Lemma unsubscribe_removes_oldest_registration_witness :
  let w := one_listener_world in
  let o := MkOptions (VBool true) VUndefined in
  let u := fst (on "x" 1%nat o w) in
  let w1 := snd (on "x" 1%nat o w) in
  map once_flag (listeners_of "x" w1) = [VBool false; VBool true] /\
  map once_flag (listeners_of "x" (unsubscribe u w1)) = [VBool true] /\
  listeners_of "x" (unsubscribe u w1)
  = remove_first (has_callback 1%nat) (listeners_of "x" w)
    ++ [make_listener (next_lid (bus w)) 1%nat o] /\
  getListenerCount "x" (unsubscribe u w1) = getListenerCount "x" w.
Proof.
  intros w o. split; [reflexivity|]. split; [reflexivity|].
  apply (unsubscribe_removes_oldest_registration "x" 1%nat o w
           (make_listener 0 1%nat no_options)).
  - exact bus_wf_one_listener_world.
  - exact bus_ids_unique_one_listener_world.
  - vm_compute. left. reflexivity.
  - reflexivity.
Defined.

Lemma emit_removes_once_listeners_that_returned_witness :
  let w := mixed_once_world in
  let s := emit first_throws "T" VNull w in
  map (fun l => (callback l, once_flag l)) (listeners_of "T" w)
  = [(2%nat, VBool false); (1%nat, VBool true); (2%nat, VBool true)] /\
  map inv_result (trace s)
  = [Returned VUndefined; Threw (JsError "boom"); Returned VUndefined] /\
  map (fun l => (callback l, once_flag l)) (listeners_of "T" (after s))
  = [(2%nat, VBool false); (1%nat, VBool true)] /\
  listeners_of "T" (after s)
  = without_ids (once_done (listeners_of "T" w) (trace s)) (listeners_of "T" w).
Proof.
  intros w s. split; [reflexivity|]. split; [reflexivity|].
  split; [reflexivity|].
  apply (emit_removes_once_listeners_that_returned first_throws "T" VNull w).
  - exact first_throws_keeps_bus.
  - exact bus_ids_unique_mixed_once_world.
Defined.

(** ** The statements on the store at concrete inputs *)

Lemma returns_seven_quiet : quiet_observers returns_seven.
Proof. intros f this args w _. reflexivity. Defined.

Lemma returns_seven_keeps_subscribers : keeps_subscribers returns_seven.
Proof. intros f this args w. reflexivity. Defined.


Lemma returns_seven_observers_keep_history :
  observers_keep history_part returns_seven.
Proof. intros f this args w _. reflexivity. Defined.

Lemma set_orders_quiet : quiet_observers set_orders.
Proof.
  intros f this args w Hlen. unfold set_orders.
  destruct (Nat.eqb f 1); [|reflexivity].
  destruct args as [|[] [|orders [|]]]; try reflexivity.
  exfalso. apply Hlen. reflexivity.
Defined.

Lemma set_orders_observers_keep_history :
  observers_keep history_part set_orders.
Proof.
  intros f this args w _. unfold set_orders.
  destruct (Nat.eqb f 1); [|reflexivity].
  destruct args as [|[] [|orders [|]]]; reflexivity.
Defined.

Lemma commit_call_order_witness :
  let w := set_orders_world in
  let s := commit set_orders 5 "SET_ORDERS" (VArr [VStr "o2"]) w in
  outcome s = Ret tt /\
  map call_target (trace s)
  = [(AtMutation "SET_ORDERS", 1%nat, VUndefined);
     (AtSubscriber, 2%nat, VUndefined);
     (AtListener "store:mutation" 0%nat, 2%nat,
      listener_object (MkListener 0 2%nat (VBool false) VNull))].
Proof.
  intros w.
  apply (commit_call_order set_orders 5 "SET_ORDERS" 1%nat (VArr [VStr "o2"])
           VUndefined w
           (set_store
              (set_state (prop_set "orders" (VArr [VStr "o2"]) (state (store w)))
                         (store (committing w))) (committing w))).
  - exact set_orders_quiet.
  - reflexivity.
  - reflexivity.
  - vm_compute. lia.
Defined.

Lemma commit_lowers_flag_witness :
  let w := committing observed_mutation_world in
  isCommitting (store w) = true /\
  outcome (commit first_throws 5 "M" VNull w) = Throw (JsError "boom") /\
  outcome (commit first_throws 5 "M" VNull w) <> OutOfFuel /\
  isCommitting (store (after (commit first_throws 5 "M" VNull w))) = false.
Proof.
  intros w. split; [reflexivity|]. split; [reflexivity|].
  apply (commit_lowers_flag first_throws 5 "M" 1%nat VNull w).
  - exact first_throws_keeps_subscribers.
  - reflexivity.
  - vm_compute. lia.
Defined.

Lemma commit_records_entry_witness :
  let w := later set_orders_world in
  let s := commit set_orders 5 "SET_ORDERS" (VArr [VStr "o2"]) w in
  outcome s = Ret tt /\
  exists e,
    last (history_entries (after s)) = Some e /\
    h_type e = "mutation" /\
    h_name e = "SET_ORDERS" /\
    h_payload e = VArr [VStr "o2"] /\
    h_newState e = [("orders", VArr [VStr "o2"]); ("ready", VBool true)] /\
    h_newState e = state (store (after s)) /\
    h_timestamp e = 1000 /\
    (forall k, primitive (prop_get k (state (store w))) = true ->
               prop_get k (h_prevState e) = prop_get k (state (store w))).
Proof.
  intros w.
  apply (commit_records_entry set_orders 5 "SET_ORDERS" 1%nat
           (VArr [VStr "o2"]) VUndefined w
           (set_store
              (set_state (prop_set "orders" (VArr [VStr "o2"]) (state (store w)))
                         (store (committing w))) (committing w))).
  - exact set_orders_keeps_subscribers.
  - exact set_orders_observers_keep_history.
  - exact set_orders_observers_keep_state.
  - reflexivity.
  - reflexivity.
  - vm_compute. lia.
  - vm_compute. discriminate.
Defined.


Lemma clearHistory_starts_new_array_witness :
  let w := snd (getHistory (three_commits one_mutation_world)) in
  let r := fst (getHistory (three_commits one_mutation_world)) in
  length (deref r w) = 3%nat /\
  history_entries (clearHistory w) = [] /\
  maxHistorySize (store (clearHistory w)) = maxHistorySize (store w) /\
  state (store (clearHistory w)) = state (store w) /\
  deref r (clearHistory w) = deref r w.
Proof.
  intros w r. split; [reflexivity|].
  apply (clearHistory_starts_new_array r w).
  vm_compute. eexists. reflexivity.
Defined.

Lemma subscribe_then_unsubscribe_witness :
  let w := isolation_world in
  let u := fst (subscribe 5%nat w) in
  let w1 := snd (subscribe 5%nat w) in
  set_values (subscribers (store w)) = [1%nat; 2%nat] /\
  set_values (subscribers (store w1)) = set_values (subscribers (store w)) ++ [5%nat] /\
  set_values (subscribers (store (unsubscribe u w1)))
  = set_values (subscribers (store w)) /\
  bus (unsubscribe u w1) = bus w /\
  state (store (unsubscribe u w1)) = state (store w).
Proof.
  intros w. split; [reflexivity|].
  apply (subscribe_then_unsubscribe 5%nat w).
  vm_compute. intros [H|[H|[]]]; discriminate.
Defined.

Lemma unknown_action_and_getter_witness :
  dispatch first_throws registers_late "nope" VNull action_world
  = MkStep (Throw (JsError "Действие 'nope' не найдено")) action_world [] /\
  getGetter first_throws "nope" action_world
  = MkStep (Throw (JsError "Геттер 'nope' не найден")) action_world [].
Proof.
  apply (unknown_action_and_getter first_throws registers_late "nope" "nope"
           VNull action_world);
    reflexivity.
Defined.

(** * The mutations of the data module *)

Section DataMutations.

Lemma prop_get_set (k k' : string) (v : Value) (o : Props) :
  prop_get k (prop_set k' v o) = if String.eqb k k' then v else prop_get k o.
Proof.
  induction o as [|[k0 v0] o IH]; simpl.
  - destruct (String.eqb k k'); reflexivity.
  - destruct (String.eqb_spec k' k0) as [->|Hne]; simpl.
    + destruct (String.eqb k k0); reflexivity.
    + rewrite IH. destruct (String.eqb_spec k k0) as [->|Hne'].
      * destruct (String.eqb_spec k0 k'); [congruence | reflexivity].
      * reflexivity.
Qed.

Lemma prop_get_set_other (k k' : string) (v : Value) (o : Props) :
  k <> k' -> prop_get k (prop_set k' v o) = prop_get k o.
Proof.
  intros Hne. rewrite prop_get_set.
  destruct (String.eqb_spec k k'); [contradiction | reflexivity].
Qed.

Lemma prop_get_set_same (k : string) (v : Value) (o : Props) :
  prop_get k (prop_set k v o) = v.
Proof. rewrite prop_get_set. now rewrite String.eqb_refl. Qed.

Lemma prop_set_array_same (k : string) (o : Props) (xs : list Value) :
  prop_get k o = VArr xs -> prop_set k (VArr xs) o = o.
Proof.
  induction o as [|[k0 v0] o IH]; simpl; [discriminate|].
  destruct (String.eqb_spec k k0) as [->|Hne]; simpl.
  - now intros ->.
  - intros H. now rewrite IH.
Qed.

Lemma collection_array (key : string) (st : Props) (xs : list Value) :
  prop_get key st = VArr xs -> collection key st = inr xs.
Proof. unfold collection. now intros ->. Qed.

Lemma js_id_readable (u : Value) :
  u <> VUndefined -> u <> VNull -> exists uid, js_id u = inr uid.
Proof. destruct u; intros H1 H2; try congruence; eexists; reflexivity. Qed.

Lemma js_id_returns (u uid : Value) :
  js_id u = inr uid -> u <> VUndefined /\ u <> VNull.
Proof. destruct u; simpl; intros H; split; congruence. Qed.

Lemma filter_other_ids_readable (id : Value) (xs : list Value) :
  readable xs ->
  filter_other_ids id xs = inr (List.filter (id_differs id) xs).
Proof.
  unfold readable. induction 1 as [|u xs [Hu Hn] _ IH]; simpl; [reflexivity|].
  destruct (js_id_readable u Hu Hn) as [uid Hid].
  unfold id_differs at 1. rewrite Hid, IH.
  destruct (strict_eq uid id); reflexivity.
Qed.

Lemma readable_filter (p : Value -> bool) (xs : list Value) :
  readable xs -> readable (List.filter p xs).
Proof.
  unfold readable. rewrite !List.Forall_forall. intros H u Hin.
  apply List.filter_In in Hin. apply H, Hin.
Qed.

Lemma filter_filter_same {A : Type} (p : A -> bool) (xs : list A) :
  List.filter p (List.filter p xs) = List.filter p xs.
Proof.
  induction xs as [|x xs IH]; simpl; [reflexivity|].
  destruct (p x) eqn:Hp; simpl; [rewrite Hp, IH|]; auto.
Qed.

Lemma filter_all {A : Type} (p : A -> bool) (xs : list A) :
  Forall (fun x => p x = true) xs -> List.filter p xs = xs.
Proof.
  induction 1 as [|x xs Hx _ IH]; simpl; [reflexivity|].
  now rewrite Hx, IH.
Qed.

(** X18: [REMOVE_*] with a primitive [id], on a collection none of whose
    items is [null] or [undefined], leaves exactly the items whose [id] is
    not that value, in their order: every item with the [id] is removed,
    not the first only.  No other property of the state is changed, and
    removing the same [id] again changes nothing. *)
Theorem remove_item_removes_every_match (key : string) (st : Props)
    (xs : list Value) (id : Value) :
  primitive id = true ->
  prop_get key st = VArr xs ->
  readable xs ->
  exists st',
    remove_item key st id = inr st' /\
    prop_get key st' = VArr (List.filter (id_differs id) xs) /\
    (forall k, k <> key -> prop_get k st' = prop_get k st) /\
    remove_item key st' id = inr st'.
Proof.
  intros _ Hget Hread.
  exists (prop_set key (VArr (List.filter (id_differs id) xs)) st).
  split; [|split; [|split]].
  - unfold remove_item.
    now rewrite (collection_array _ _ _ Hget), filter_other_ids_readable.
  - apply prop_get_set_same.
  - intros k Hk. now apply prop_get_set_other.
  - unfold remove_item.
    rewrite (collection_array _ _ _ (prop_get_set_same _ _ _)).
    rewrite filter_other_ids_readable by now apply readable_filter.
    now rewrite filter_filter_same, prop_set_twice.
Qed.

Lemma add_then_remove_steps (key : string) (st : Props)
    (xs : list Value) (item i id : Value) :
  prop_get key st = VArr xs ->
  readable xs ->
  Forall (fun u => id_differs id u = true) xs ->
  js_id item = inr i ->
  strict_eq i id = true ->
  exists st1,
    add_item key st item = inr st1 /\
    remove_item key st1 id = inr st.
Proof.
  intros Hget Hread Hdiff Hitem Heq.
  exists (prop_set key (VArr (xs ++ [item])) st). split.
  - unfold add_item. now rewrite (collection_array _ _ _ Hget).
  - unfold remove_item.
    rewrite (collection_array _ _ _ (prop_get_set_same _ _ _)).
    rewrite filter_other_ids_readable.
    2:{ unfold readable. apply Forall_app. split; [exact Hread|].
        constructor; [|constructor]. exact (js_id_returns _ _ Hitem). }
    rewrite List.filter_app, (filter_all _ _ Hdiff). simpl.
    unfold id_differs at 1. rewrite Hitem, Heq. simpl.
    rewrite app_nil_r, prop_set_twice.
    now rewrite (prop_set_array_same _ _ _ Hget).
Qed.

Lemma find_index_id_none (updated pid : Value) (xs : list Value) :
  js_id updated = inr pid ->
  readable xs ->
  Forall (fun u => id_differs pid u = true) xs ->
  forall i, find_index_id updated xs i = inr None.
Proof.
  intros Hp Hread Hdiff. unfold readable in Hread.
  induction xs as [|u xs IH]; intros i; simpl; [reflexivity|].
  inversion Hread as [|? ? [Hu Hn] Hread']; subst.
  inversion Hdiff as [|? ? Hd Hdiff']; subst.
  destruct (js_id_readable u Hu Hn) as [uid Hid].
  unfold id_differs in Hd. rewrite Hid in Hd. rewrite Hid, Hp.
  destruct (strict_eq uid pid); [discriminate|]. now apply IH.
Qed.

Lemma find_index_id_first (updated pid old : Value) (pre post : list Value) :
  js_id updated = inr pid ->
  readable pre ->
  Forall (fun u => id_differs pid u = true) pre ->
  id_differs pid old = false ->
  old <> VUndefined -> old <> VNull ->
  forall i,
    find_index_id updated (pre ++ old :: post) i = inr (Some (i + length pre)%nat).
Proof.
  intros Hp Hread Hdiff Hold Hu Hn. unfold readable in Hread.
  induction pre as [|u pre IH]; intros i; simpl.
  - destruct (js_id_readable old Hu Hn) as [oid Hid].
    unfold id_differs in Hold. rewrite Hid in Hold. rewrite Hid, Hp.
    destruct (strict_eq oid pid); [|discriminate].
    now rewrite Nat.add_0_r.
  - inversion Hread as [|? ? [Hu' Hn'] Hread']; subst.
    inversion Hdiff as [|? ? Hd Hdiff']; subst.
    destruct (js_id_readable u Hu' Hn') as [uid Hid].
    unfold id_differs in Hd. rewrite Hid in Hd. rewrite Hid, Hp.
    destruct (strict_eq uid pid); [discriminate|].
    rewrite IH by assumption. do 2 f_equal. lia.
Qed.

(** X19: [UPDATE_*] with a payload whose [id] is a primitive value that no
    item of the collection has as its [id] returns normally and leaves the
    state record as it is: nothing is added.  This is for a collection none
    of whose items is [null] or [undefined]. *)
Theorem update_item_unknown_id (key : string) (st : Props)
    (xs : list Value) (updated pid : Value) :
  prop_get key st = VArr xs ->
  readable xs ->
  js_id updated = inr pid ->
  primitive pid = true ->
  Forall (fun u => id_differs pid u = true) xs ->
  update_item key st updated = inr st.
Proof.
  intros Hget Hread Hp _ Hdiff. unfold update_item.
  rewrite (collection_array _ _ _ Hget).
  now rewrite (find_index_id_none updated pid xs Hp Hread Hdiff).
Qed.

Lemma has_prop_set (k k' : string) (v : Value) (o : Props) :
  has_prop k (prop_set k' v o) = String.eqb k k' || has_prop k o.
Proof.
  unfold has_prop. induction o as [|[k0 v0] o IH]; simpl.
  - now rewrite orb_false_r.
  - destruct (String.eqb_spec k' k0) as [->|Hne]; simpl.
    + now destruct (String.eqb k k0).
    + rewrite IH. now destruct (String.eqb k k'), (String.eqb k k0).
Qed.

Lemma prop_get_absent (k : string) (o : Props) :
  has_prop k o = false -> prop_get k o = VUndefined.
Proof.
  unfold has_prop. induction o as [|[k0 v0] o IH]; simpl; [reflexivity|].
  destruct (String.eqb k k0); simpl; [discriminate | exact IH].
Qed.

Lemma has_prop_in (k : string) (o : Props) :
  has_prop k o = true <-> In k (map fst o).
Proof.
  unfold has_prop. rewrite List.existsb_exists. split.
  - intros ([k' v] & Hin & Heq). apply String.eqb_eq in Heq. simpl in Heq.
    subst. apply List.in_map_iff. now exists (k', v).
  - intros Hin. apply List.in_map_iff in Hin as ([k' v] & <- & Hin).
    exists (k', v). split; [exact Hin | apply String.eqb_refl].
Qed.

(** A property of [{ ...a, ...b }] is the one of [b] when [b] has it, and
    the one of [a] otherwise. *)
Lemma prop_get_merge (k : string) (b : Props) :
  List.NoDup (map fst b) ->
  forall a,
    prop_get k (merge_props a b)
    = if has_prop k b then prop_get k b else prop_get k a.
Proof.
  unfold merge_props.
  induction b as [|[k0 v0] b IH]; intros Hnd a; simpl; [reflexivity|].
  inversion Hnd as [|? ? Hnot Hnd']; subst.
  rewrite (IH Hnd'). unfold has_prop at 2. simpl. fold (has_prop k b).
  destruct (String.eqb_spec k k0) as [->|Hne]; simpl.
  - destruct (has_prop k0 b) eqn:Hb.
    + exfalso. apply Hnot. now apply has_prop_in.
    + apply prop_get_set_same.
  - destruct (has_prop k b); [reflexivity|].
    now apply prop_get_set_other.
Qed.

(** X20: [UPDATE_*] changes the first item whose [id] is the payload's and
    no other: the item becomes a record that has each property of the
    payload and, for the rest, the properties the item had; the items
    before and after it, later items with the same [id] among them, and the
    other properties of the state stay as they are. *)
Theorem update_item_first_match (key : string) (st : Props)
    (pre post : list Value) (old u : Props) :
  prop_get key st = VArr (pre ++ VObj old :: post) ->
  readable pre ->
  Forall (fun x => id_differs (prop_get "id" u) x = true) pre ->
  strict_eq (prop_get "id" old) (prop_get "id" u) = true ->
  List.NoDup (map fst u) ->
  exists merged st',
    update_item key st (VObj u) = inr st' /\
    prop_get key st' = VArr (pre ++ VObj merged :: post) /\
    (forall k, prop_get k merged
               = if has_prop k u then prop_get k u else prop_get k old) /\
    (forall k, k <> key -> prop_get k st' = prop_get k st).
Proof.
  intros Hget Hread Hdiff Heq Hnd.
  exists (merge_props old u).
  exists (prop_set key (VArr (pre ++ VObj (merge_props old u) :: post)) st).
  split; [|split; [|split]].
  - unfold update_item. rewrite (collection_array _ _ _ Hget).
    rewrite (find_index_id_first (VObj u) (prop_get "id" u) (VObj old) pre post
               eq_refl Hread Hdiff); try discriminate.
    2:{ unfold id_differs. simpl. now rewrite Heq. }
    simpl.
    rewrite list_lookup_middle by reflexivity. simpl.
    rewrite insert_app_r_alt by lia.
    rewrite Nat.sub_diag. reflexivity.
  - apply prop_get_set_same.
  - intros k. now apply prop_get_merge.
  - intros k Hk. now apply prop_get_set_other.
Qed.

Lemma update_item_null (key : string) (st : Props) (xs : list Value) :
  prop_get key st = VArr xs ->
  readable xs ->
  update_item key st VNull
  = match xs with [] => inr st | _ :: _ => inl not_an_object end.
Proof.
  intros Hget Hread. unfold update_item.
  rewrite (collection_array _ _ _ Hget).
  destruct xs as [|x xs]; [reflexivity|]. simpl.
  inversion Hread as [|? ? [Hu Hn] _]; subst.
  destruct (js_id_readable x Hu Hn) as [uid ->]. reflexivity.
Qed.

End DataMutations.

Section DataCommits.
Variable call : Fn -> Value -> list Value -> World -> Completion * World.
Hypothesis call_subscribers : keeps_subscribers call.
Hypothesis call_mutations : keeps_mutations call.
Hypothesis call_state : observers_keep (fun w => state (store w)) call.

(** A commit of a function that is the mutation [m]: it ends as [m] does on
    the state record and the payload, and leaves the record [m] leaves. *)
Lemma commit_as_mutation (fuel : nat) (name : string) (f : Fn)
    (m : Props -> Value -> Exn + Props) (p : Value) (w : World) :
  is_mutation call f m ->
  mutations (store w) !! name = Some f ->
  (length (subscribers (store w)) < fuel)%nat ->
  match m (state (store w)) (default_null p) with
  | inr st' =>
      outcome (commit call fuel name p w) = Ret tt /\
      state (store (after (commit call fuel name p w))) = st'
  | inl e =>
      outcome (commit call fuel name p w) = Throw e /\
      state (store (after (commit call fuel name p w))) = state (store w)
  end.
Proof.
  intros Hm Hreg Hfuel.
  pose proof (Hm VUndefined [VObj (state (store w)); default_null p]
                (committing w)) as Hcall.
  unfold as_mutation in Hcall.
  change (state (store (committing w))) with (state (store w)) in Hcall.
  destruct (m (state (store w)) (default_null p)) as [e|st'].
  - exact (commit_state call fuel name f p _ w _
             call_subscribers call_state Hreg Hcall Hfuel).
  - exact (commit_state call fuel name f p _ w _
             call_subscribers call_state Hreg Hcall Hfuel).
Qed.

(** X21: a commit of [UPDATE_*] without a payload hands [null] to the
    mutation, which throws a [TypeError] as soon as the collection has an
    item, since the search reads the [id] of the payload for the first item
    it looks at; [commit] rethrows it.  On an empty collection nothing is
    read and the commit returns.  The state is unchanged either way. *)
Theorem commit_update_without_payload (fuel : nat) (name : string) (f : Fn)
    (key : string) (xs : list Value) (w : World) :
  is_mutation call f (update_item key) ->
  mutations (store w) !! name = Some f ->
  (length (subscribers (store w)) < fuel)%nat ->
  prop_get key (state (store w)) = VArr xs ->
  readable xs ->
  let s := commit call fuel name VUndefined w in
  outcome s = match xs with [] => Ret tt | _ :: _ => Throw not_an_object end /\
  state (store (after s)) = state (store w).
Proof.
  intros Hm Hreg Hfuel Hget Hread s.
  pose proof (commit_as_mutation fuel name f (update_item key) VUndefined w
                Hm Hreg Hfuel) as H.
  change (default_null VUndefined) with VNull in H.
  rewrite (update_item_null key _ xs Hget Hread) in H.
  destruct xs as [|x xs]; exact H.
Qed.

(** X22: committing [ADD_*] with an item and then [REMOVE_*] with the [id]
    of that item returns both times and leaves the state of the store as it
    was before.  This is for an [id] that is a primitive value other than
    [undefined] and that no item of the collection had, for a collection
    none of whose items is [null] or [undefined], and for listeners and
    subscribers that do not write the store. *)
Theorem commit_add_then_remove (fuel : nat) (add remove : string)
    (fa fr : Fn) (key : string) (xs : list Value) (item id : Value)
    (w : World) :
  is_mutation call fa (add_item key) ->
  is_mutation call fr (remove_item key) ->
  mutations (store w) !! add = Some fa ->
  mutations (store w) !! remove = Some fr ->
  (length (subscribers (store w)) < fuel)%nat ->
  prop_get key (state (store w)) = VArr xs ->
  readable xs ->
  Forall (fun u => id_differs id u = true) xs ->
  js_id item = inr id ->
  primitive id = true ->
  id <> VUndefined ->
  exists w',
    commits call fuel [(add, item); (remove, id)] w = Some w' /\
    state (store w') = state (store w).
Proof.
  intros Hadd Hremove Hra Hrr Hfuel Hget Hread Hdiff Hitem Hprim Hid.
  assert (Heq : strict_eq id id = true).
  { destruct id; try discriminate Hprim; simpl;
      [reflexivity | reflexivity | apply Bool.eqb_reflx | apply Z.eqb_refl
      | apply String.eqb_refl]. }
  destruct (add_then_remove_steps key (state (store w)) xs item id id
              Hget Hread Hdiff Hitem Heq) as (st1 & Ha & Hr).
  assert (Hitem' : default_null item = item).
  { destruct item; try reflexivity. discriminate Hitem. }
  assert (Hid' : default_null id = id).
  { destruct id; try reflexivity. contradiction. }
  pose proof (commit_as_mutation fuel add fa (add_item key) item w
                Hadd Hra Hfuel) as H1.
  rewrite Hitem', Ha in H1. destruct H1 as [Ho1 Hs1].
  destruct (commit_keeps_registries call fuel add item w call_subscribers
              call_mutations Ho1) as [Hmu Hsub].
  set (w1 := after (commit call fuel add item w)) in *.
  pose proof (commit_as_mutation fuel remove fr (remove_item key) id w1
                Hremove) as H2.
  rewrite Hmu, Hsub, Hid', Hs1, Hr in H2.
  destruct (H2 Hrr Hfuel) as [Ho2 Hs2].
  exists (after (commit call fuel remove id w1)).
  split; [|exact Hs2].
  cbn [commits]. cbv zeta. rewrite Ho1. fold w1. rewrite Ho2. reflexivity.
Qed.

End DataCommits.

(** ** The mutations of the data module on a store with two users *)

Lemma readable_two_users : readable two_users.
Proof. repeat constructor; discriminate. Qed.

Lemma data_module_keeps_subscribers : keeps_subscribers data_module.
Proof.
  intros f this args w. unfold data_module, as_mutation.
  destruct (data_mutations !! f) as [[n [k key]]|]; [|reflexivity].
  destruct args as [|[] [|p [|]]]; try reflexivity.
  destruct (apply_kind k key (state (store w)) p); reflexivity.
Qed.

Lemma data_module_keeps_mutations : keeps_mutations data_module.
Proof.
  intros f this args w. unfold data_module, as_mutation.
  destruct (data_mutations !! f) as [[n [k key]]|]; [|reflexivity].
  destruct args as [|[] [|p [|]]]; try reflexivity.
  destruct (apply_kind k key (state (store w)) p); reflexivity.
Qed.

Lemma data_module_observers_keep_state :
  observers_keep (fun w => state (store w)) data_module.
Proof.
  intros f this args w Hlen. unfold data_module, as_mutation.
  destruct (data_mutations !! f) as [[n [k key]]|]; [|reflexivity].
  destruct args as [|[] [|p [|]]]; try reflexivity.
  now contradiction Hlen.
Qed.

Lemma remove_item_removes_every_match_witness :
  List.filter (id_differs (VNum 1)) users_with_duplicate
  = [VObj [("id", VNum 2); ("name", VStr "ann")]] /\
  exists st',
    remove_item "users" duplicate_state (VNum 1) = inr st' /\
    prop_get "users" st'
    = VArr (List.filter (id_differs (VNum 1)) users_with_duplicate) /\
    (forall k, k <> "users" -> prop_get k st' = prop_get k duplicate_state) /\
    remove_item "users" st' (VNum 1) = inr st'.
Proof.
  split; [reflexivity|].
  apply (remove_item_removes_every_match "users" duplicate_state
           users_with_duplicate (VNum 1)).
  - reflexivity.
  - reflexivity.
  - repeat constructor; discriminate.
Defined.

Lemma update_item_unknown_id_witness :
  update_item "users" data_state third_user = inr data_state.
Proof.
  apply (update_item_unknown_id "users" data_state two_users third_user
           (VNum 3)).
  - reflexivity.
  - exact readable_two_users.
  - reflexivity.
  - reflexivity.
  - repeat constructor.
Defined.

Lemma update_item_first_match_witness :
  exists merged st',
    update_item "users" data_state (VObj second_user_update) = inr st' /\
    prop_get "users" st'
    = VArr ([VObj [("id", VNum 1); ("name", VStr "admin")]]
              ++ VObj merged :: []) /\
    (forall k, prop_get k merged
               = if has_prop k second_user_update
                 then prop_get k second_user_update
                 else prop_get k [("id", VNum 2); ("name", VStr "ann");
                                  ("isActive", VBool true)]) /\
    (forall k, k <> "users" -> prop_get k st' = prop_get k data_state).
Proof.
  apply (update_item_first_match "users" data_state
           [VObj [("id", VNum 1); ("name", VStr "admin")]] []
           [("id", VNum 2); ("name", VStr "ann"); ("isActive", VBool true)]
           second_user_update).
  - reflexivity.
  - repeat constructor; discriminate.
  - repeat constructor.
  - reflexivity.
  - repeat constructor; simpl; intuition discriminate.
Defined.

Lemma commit_update_without_payload_witness :
  let s := commit data_module 1 "UPDATE_USER" VUndefined data_world in
  outcome s = Throw not_an_object /\
  state (store (after s)) = state (store data_world).
Proof.
  apply (commit_update_without_payload data_module
           data_module_keeps_subscribers data_module_observers_keep_state
           1 "UPDATE_USER" 2%nat "users" two_users data_world).
  - intros this args w. reflexivity.
  - vm_compute. reflexivity.
  - vm_compute. lia.
  - vm_compute. reflexivity.
  - exact readable_two_users.
Defined.

Lemma commit_add_then_remove_witness :
  exists w',
    commits data_module 1 [("ADD_USER", third_user); ("REMOVE_USER", VNum 3)]
            data_world = Some w' /\
    state (store w') = state (store data_world).
Proof.
  apply (commit_add_then_remove data_module
           data_module_keeps_subscribers data_module_keeps_mutations
           data_module_observers_keep_state
           1 "ADD_USER" "REMOVE_USER" 1%nat 3%nat "users" two_users
           third_user (VNum 3)).
  - intros this args w. reflexivity.
  - intros this args w. reflexivity.
  - vm_compute. reflexivity.
  - vm_compute. reflexivity.
  - vm_compute. lia.
  - vm_compute. reflexivity.
  - exact readable_two_users.
  - repeat constructor.
  - reflexivity.
  - reflexivity.
  - discriminate.
Defined.
